(** * WX-exif4filler: capture-date scanner, filler, preview and writer

    A shallow embedding of [WX-exif4filler.py].  Text is a [string] whose
    characters stand for the code points 0..255; integers are [Z]; the
    [DataFrame] is the list of its rows; a Python exception is the [Raise]
    result of the [res] monad; the image files are a finite map from path
    to what the two imaging libraries observe of a file. *)

From Stdlib Require Import ZArith Ascii String OrderedTypeEx.
From stdpp Require Import base tactics option list sorting strings gmap.

Local Open Scope Z_scope.

(** ** Exceptions *)

Inductive exn : Set :=
  | ValueError | TypeError | IndexError | AttributeError | OSError.

Inductive res (A : Type) : Type :=
  | Ok (a : A)
  | Raise (e : exn).
Arguments Ok {A} a.
Arguments Raise {A} e.

Definition res_bind {A B} (f : A → res B) (m : res A) : res B :=
  match m with
  | Ok a => f a
  | Raise e => Raise e
  end.

#[global] Instance res_mbind : MBind res := @res_bind.
#[global] Instance res_mret : MRet res := @Ok.

(** [try: body / except Exception: handler]. *)
Definition try_except {A} (body : res A) (handler : exn → res A) : res A :=
  match body with
  | Ok a => Ok a
  | Raise e => handler e
  end.

(** ** Characters and text *)

Module Char.
Definition code (c : ascii) : Z := Z.of_N (N_of_ascii c).

(** [\d] on code points below 256: the ten decimal digits. *)
Definition is_digit (c : ascii) : bool :=
  (48 <=? code c) && (code c <=? 57).

(** [\s] on code points below 256. *)
Definition is_space (c : ascii) : bool :=
  let n := code c in
  ((9 <=? n) && (n <=? 13)) || ((28 <=? n) && (n <=? 32))
  || (n =? 133) || (n =? 160).

Definition digit_val (c : ascii) : Z := code c - 48.

Definition of_digit (d : Z) : ascii := ascii_of_N (Z.to_N (48 + d)).

Definition eqb (a b : ascii) : bool := Ascii.eqb a b.
End Char.

Definition hyphen : ascii := "-"%char.
Definition colon : ascii := ":"%char.
Definition blank : ascii := " "%char.

Fixpoint all_digits (s : string) : bool :=
  match s with
  | EmptyString => true
  | String c s' => Char.is_digit c && all_digits s'
  end.

(** Value of a run of decimal digits, most significant first. *)
Fixpoint digits_val (acc : Z) (s : string) : Z :=
  match s with
  | EmptyString => acc
  | String c s' => digits_val (10 * acc + Char.digit_val c) s'
  end.

(** [int(s)] on the text that reaches it in this program: a non-empty run
    of decimal digits (the two halves of a key found by [extract_ym]).
    Any other text is answered with [ValueError]; the signs, blanks and
    underscores that [int] would also read never occur in such a key. *)
Definition py_int (s : string) : res Z :=
  match s with
  | EmptyString => Raise ValueError
  | _ => if all_digits s then Ok (digits_val 0 s) else Raise ValueError
  end.

(** [s.split(sep)] for a one-character separator. *)
Fixpoint split (sep : ascii) (s : string) : list string :=
  match s with
  | EmptyString => [EmptyString]
  | String c s' =>
      if Char.eqb c sep then EmptyString :: split sep s'
      else match split sep s' with
           | p :: ps => String c p :: ps
           | [] => [String c EmptyString]
           end
  end.

(** ** [datetime] *)

Record datetime : Set := mkDatetime {
  year : Z; month : Z; day : Z; hour : Z; minute : Z; second : Z
}.

#[global] Instance datetime_eq_dec : EqDecision datetime.
Proof. solve_decision. Defined.

Definition is_leap (y : Z) : bool :=
  (y mod 4 =? 0) && (negb (y mod 100 =? 0) || (y mod 400 =? 0)).

Definition days_in_month (y m : Z) : Z :=
  if m =? 2 then (if is_leap y then 29 else 28)
  else if (m =? 4) || (m =? 6) || (m =? 9) || (m =? 11) then 30
  else 31.

Definition in_range (lo hi x : Z) : bool := (lo <=? x) && (x <=? hi).

(** The checks of the [datetime] constructor (MINYEAR = 1, MAXYEAR = 9999). *)
Definition valid_fields (y mo d h mi s : Z) : bool :=
  in_range 1 9999 y && in_range 1 12 mo && in_range 1 (days_in_month y mo) d
  && in_range 0 23 h && in_range 0 59 mi && in_range 0 59 s.

(** [datetime(y, mo, d, h, mi, s)]. *)
Definition new_datetime (y mo d h mi s : Z) : res datetime :=
  if valid_fields y mo d h mi s then Ok (mkDatetime y mo d h mi s)
  else Raise ValueError.

(** [dt.replace(hour=h, minute=mi, second=s)]: a new, checked datetime. *)
Definition replace_time (dt : datetime) (h mi s : Z) : res datetime :=
  new_datetime (year dt) (month dt) (day dt) h mi s.

Definition valid_datetime (dt : datetime) : bool :=
  valid_fields (year dt) (month dt) (day dt) (hour dt) (minute dt) (second dt).

(** ** [strftime] and [strptime] *)

Definition pad2 (n : Z) (k : string) : string :=
  String (Char.of_digit (n / 10)) (String (Char.of_digit (n mod 10)) k).

Definition pad4 (n : Z) (k : string) : string :=
  String (Char.of_digit (n / 1000))
    (String (Char.of_digit (n / 100 mod 10)) (pad2 (n mod 100) k)).

(** [%Y] as the C library prints it: the year as a decimal number without
    padding, so a year below 1000 has fewer than four digits. *)
Definition year_text (n : Z) (k : string) : string :=
  if n <? 10 then String (Char.of_digit n) k
  else if n <? 100 then pad2 n k
  else if n <? 1000 then String (Char.of_digit (n / 100)) (pad2 (n mod 100) k)
  else pad4 n k.

(** [dt.strftime("%Y<sep>%m<sep>%d %H:%M:%S")]. *)
Definition strftime (sep : ascii) (dt : datetime) : string :=
  year_text (year dt) (String sep (pad2 (month dt) (String sep (pad2 (day dt)
    (String blank (pad2 (hour dt) (String colon (pad2 (minute dt)
      (String colon (pad2 (second dt) EmptyString)))))))))).

(** The writer's and the preview's formats. *)
Definition exif_format (dt : datetime) : string := strftime colon dt.
Definition preview_format (dt : datetime) : string := strftime hyphen dt.

Module Strptime.
(** One field of the pattern that [strptime] compiles its format to: the
    number read and the rest of the text.  The alternatives of a field
    are tried in the order of the pattern; as every field is followed by
    a character that is no digit, the first alternative that matches is
    the one the whole match uses. *)
Definition field := string → option (Z * string).

Definition two (a b : ascii) : Z := 10 * Char.digit_val a + Char.digit_val b.

(** [%Y]: four digits. *)
Definition Y : field := λ s,
  match s with
  | String a (String b (String c (String d k))) =>
      if Char.is_digit a && Char.is_digit b && Char.is_digit c
         && Char.is_digit d
      then Some (10 * (10 * two a b + Char.digit_val c) + Char.digit_val d, k)
      else None
  | _ => None
  end.

(** A field of one or two digits: [ok2 a b] says that the two-digit
    alternatives take [ab], [ok1 a] that the one-digit alternative
    takes [a]. *)
Definition digits12 (ok2 : Z → Z → bool) (ok1 : Z → bool) : field := λ s,
  match s with
  | String a k1 =>
      if Char.is_digit a then
        match k1 with
        | String b k2 =>
            if Char.is_digit b && ok2 (Char.digit_val a) (Char.digit_val b)
            then Some (two a b, k2)
            else if ok1 (Char.digit_val a) then Some (Char.digit_val a, k1)
            else None
        | EmptyString =>
            if ok1 (Char.digit_val a) then Some (Char.digit_val a, k1)
            else None
        end
      else None
  | EmptyString => None
  end.

(** [%m]: 1[0-2] | 0[1-9] | [1-9]. *)
Definition m : field :=
  digits12 (λ a b, ((a =? 1) && (b <=? 2)) || ((a =? 0) && (1 <=? b)))
           (λ a, 1 <=? a).

(** [%d]: 3[01] | [12]\d | 0[1-9] | [1-9] | " "[1-9]. *)
Definition d : field := λ s,
  match digits12 (λ a b, ((a =? 3) && (b <=? 1)) || (a =? 1) || (a =? 2)
                         || ((a =? 0) && (1 <=? b)))
                 (λ a, 1 <=? a) s with
  | Some r => Some r
  | None =>
      match s with
      | String a (String b k) =>
          if Char.eqb a blank && Char.is_digit b && (1 <=? Char.digit_val b)
          then Some (Char.digit_val b, k) else None
      | _ => None
      end
  end.

(** [%H]: 2[0-3] | [0-1]\d | \d. *)
Definition H : field :=
  digits12 (λ a b, ((a =? 2) && (b <=? 3)) || (a <=? 1)) (λ _, true).

(** [%M]: [0-5]\d | \d. *)
Definition M : field := digits12 (λ a _, a <=? 5) (λ _, true).

(** [%S]: 6[0-1] | [0-5]\d | \d. *)
Definition S : field :=
  digits12 (λ a b, ((a =? 6) && (b <=? 1)) || (a <=? 5)) (λ _, true).

(** A literal character of the format. *)
Definition lit (c : ascii) (s : string) : option string :=
  match s with
  | String a k => if Char.eqb a c then Some k else None
  | EmptyString => None
  end.

Fixpoint skip_spaces (s : string) : string :=
  match s with
  | String a k => if Char.is_space a then skip_spaces k else s
  | EmptyString => s
  end.

(** A blank of the format: one or more white-space characters. *)
Definition spaces (s : string) : option string :=
  match s with
  | String a k => if Char.is_space a then Some (skip_spaces k) else None
  | EmptyString => None
  end.

(** The six numbers of a text in the format [%Y:%m:%d %H:%M:%S]; the whole
    text has to be used up. *)
Definition fields (s : string) : option (Z * Z * Z * Z * Z * Z) :=
  '(y, s) ← Y s; s ← lit colon s;
  '(mo, s) ← m s; s ← lit colon s;
  '(dd, s) ← d s; s ← spaces s;
  '(h, s) ← H s; s ← lit colon s;
  '(mi, s) ← M s; s ← lit colon s;
  '(sec, s) ← S s;
  match s with
  | EmptyString => Some (y, mo, dd, h, mi, sec)
  | _ => None
  end.
End Strptime.

(** [datetime.strptime(text, "%Y:%m:%d %H:%M:%S")]. *)
Definition strptime (text : string) : res datetime :=
  match Strptime.fields text with
  | Some (y, mo, dd, h, mi, sec) => new_datetime y mo dd h mi sec
  | None => Raise ValueError
  end.

(** ** The scanner's key: [extract_ym] *)

(** The pattern [\d{4}-\d{2}] at the head of the text. *)
Definition match_ym (s : string) : option string :=
  match s with
  | String a (String b (String c (String d (String h (String e (String f _)))))) =>
      if Char.is_digit a && Char.is_digit b && Char.is_digit c
         && Char.is_digit d && Char.eqb h hyphen
         && Char.is_digit e && Char.is_digit f
      then Some (String a (String b (String c (String d (String h
                   (String e (String f EmptyString)))))))
      else None
  | _ => None
  end.

(** [re.search(r"(\d{4}-\d{2})", fname)]: the leftmost match, if any. *)
Fixpoint extract_ym (fname : string) : option string :=
  match match_ym fname with
  | Some k => Some k
  | None =>
      match fname with
      | EmptyString => None
      | String _ rest => extract_ym rest
      end
  end.

(** ** Rows of the data frame *)

Record Row : Type := mkRow {
  file : string;
  path : string;
  ym : option string;
  date : option datetime
}.

#[global] Instance Row_eq_dec : EqDecision Row.
Proof. solve_decision. Defined.

(** [pd.isna] on a cell. *)
Definition isna {A} (cell : option A) : bool :=
  match cell with
  | None => true
  | Some _ => false
  end.

(** [group.at[idx, "date"] = dt] acts on one row through [set_date]. *)
Definition set_date (dt : datetime) (r : Row) : Row :=
  mkRow (file r) (path r) (ym r) (Some dt).

(** Order of text: by code point, a proper prefix first. *)
Definition str_le (a b : string) : Prop := String.leb a b = true.
Definition file_le (r1 r2 : Row) : Prop := str_le (file r1) (file r2).

#[global] Instance str_le_dec a b : Decision (str_le a b).
Proof. unfold str_le. apply _. Defined.
#[global] Instance file_le_dec r1 r2 : Decision (file_le r1 r2).
Proof. unfold file_le. apply _. Defined.

(** [group.sort_values("file").reset_index(drop=True)]: the rows in the
    order of their file names; the positions in the list are the new
    index.  The file names of one folder are distinct, so the order of
    the result does not depend on the sorting algorithm. *)
Definition sort_values (group : list Row) : list Row :=
  merge_sort file_le group.

(** [y, m = map(int, month_str.split("-"))]. *)
Definition parse_ym (month_str : string) : res (Z * Z) :=
  match split hyphen month_str with
  | [a; b] => y ← py_int a; m ← py_int b; Ok (y, m)
  | _ => Raise ValueError
  end.

(** Positions of the rows that satisfy [p], counted from [i]. *)
Fixpoint index_where (p : Row → bool) (i : nat) (rows : list Row) : list nat :=
  match rows with
  | [] => []
  | r :: rows' =>
      if p r then i :: index_where p (S i) rows'
      else index_where p (S i) rows'
  end.

(** [group[group["date"].isna()].index]. *)
Definition na_idx (group : list Row) : list nat :=
  index_where (λ r, isna (date r)) 0 group.

Fixpoint enumerate_from {A} (n : nat) (l : list A) : list (nat * A) :=
  match l with
  | [] => []
  | x :: l' => (n, x) :: enumerate_from (S n) l'
  end.

Definition enumerate {A} (l : list A) : list (nat * A) := enumerate_from 0 l.

(** The body of the [for seq, idx in enumerate(na_idx)] loop, run over the
    pairs still to come. *)
Fixpoint fill_loop (base_day : datetime) (todo : list (nat * nat))
    (group : list Row) : res (list Row) :=
  match todo with
  | [] => Ok group
  | (seq, idx) :: todo' =>
      let total_min := Z.of_nat seq * 30 in
      let hour := (total_min / 60) mod 24 in
      let minute := total_min mod 60 in
      dt ← replace_time base_day hour minute 0;
      fill_loop base_day todo' (alter (set_date dt) idx group)
  end.

Definition fill_month (group : list Row) : res (list Row) :=
  let group := sort_values group in
  match group with
  | [] => Raise IndexError
  | first :: _ =>
      match ym first with
      | None => Ok group
      | Some month_str =>
          '(y, m) ← parse_ym month_str;
          base_day ← new_datetime y m 1 0 0 0;
          let idx := na_idx group in
          match idx with
          | [] => Ok group
          | _ => fill_loop base_day (enumerate idx) group
          end
      end
  end.

(** ** [df.groupby("ym", group_keys=False).apply(fill_month)] *)

Definition has_ym (k : string) (r : Row) : Prop := ym r = Some k.

#[global] Instance has_ym_dec k r : Decision (has_ym k r).
Proof. unfold has_ym. apply _. Defined.

(** The group keys: the distinct keys that are present, in sorted order.
    A row whose key is missing belongs to no group ([dropna=True], the
    default of [groupby]). *)
Definition group_keys (df : list Row) : list string :=
  merge_sort str_le (remove_dups (omap ym df)).

Definition groupby_ym (df : list Row) : list (string * list Row) :=
  (λ k, (k, filter (has_ym k) df)) <$> group_keys df.

(** [apply]: the function is called group after group, the first exception
    ends the call, the results are concatenated. *)
Fixpoint apply_groups (f : list Row → res (list Row))
    (groups : list (string * list Row)) : res (list Row) :=
  match groups with
  | [] => Ok []
  | (_, g) :: groups' =>
      out ← f g; outs ← apply_groups f groups'; Ok (out ++ outs)
  end.

Definition filled (df : list Row) : res (list Row) :=
  apply_groups fill_month (groupby_ym df).

(** ** The image files *)

(** A value of an EXIF tag as [Image._getexif] hands it out: text, or
    something that is no text (bytes, a number, a tuple). *)
Inductive exif_value : Set :=
  | VStr (s : string)
  | VOther.

(** What the imaging libraries see of one file that can be opened:
    [getexif] is the outcome of [img._getexif()] (an exception, [None], or
    the dictionary from tag number to value), [saves] tells whether
    [piexif.load], [piexif.dump] and [img.save] all go through. *)
Record image : Type := mkImage {
  getexif : res (option (gmap Z exif_value));
  saves : bool
}.

(** The store maps a path to its file; [Image.open] raises on a path that
    has no entry (no such file, no permission, no image). *)
Definition image_open (fs : gmap string image) (image_path : string) : res image :=
  match fs !! image_path with
  | Some img => Ok img
  | None => Raise OSError
  end.

Module Tag.
Definition DateTime : Z := 306.
Definition DateTimeOriginal : Z := 36867.
Definition DateTimeDigitized : Z := 36868.
End Tag.

(** [TAGS.get(tag) == "DateTimeOriginal"]: the table names one tag so. *)
Definition is_DateTimeOriginal (tag : Z) : bool := tag =? Tag.DateTimeOriginal.

(** [datetime.strptime(value, "%Y:%m:%d %H:%M:%S")] on a tag value. *)
Definition strptime_value (value : exif_value) : res datetime :=
  match value with
  | VStr s => strptime s
  | VOther => Raise TypeError
  end.

(** The [for tag, value in exif.items()] loop: the first tag with the name
    ends it, with the parsed date or with the exception of the parser. *)
Fixpoint find_date (items : list (Z * exif_value)) : res (option datetime) :=
  match items with
  | [] => Ok None
  | (tag, value) :: items' =>
      if is_DateTimeOriginal tag
      then dt ← strptime_value value; Ok (Some dt)
      else find_date items'
  end.

(** The body of the [try] in [get_exif_datetime]; [Ok None] is the fall
    through to the final [return None]. *)
Definition get_exif_datetime_body (fs : gmap string image)
    (image_path : string) : res (option datetime) :=
  img ← image_open fs image_path;
  exif ← getexif img;
  match exif with
  | Some tags => find_date (map_to_list tags)
  | None => Ok None
  end.

Definition get_exif_datetime (fs : gmap string image)
    (image_path : string) : res (option datetime) :=
  try_except (get_exif_datetime_body fs image_path) (λ _, Ok None).

Definition nonempty_value (v : exif_value) : bool :=
  match v with
  | VStr EmptyString => false
  | _ => true
  end.

(** The file after a successful save: the three date tags hold the text,
    the other tags are the former ones without the empty values. *)
Definition saved (img : image) (date_str : string) : image :=
  let old : gmap Z exif_value :=
    match getexif img with
    | Ok (Some tags) => filter (λ kv, nonempty_value kv.2 = true) tags
    | _ => ∅
    end in
  mkImage
    (Ok (Some (<[Tag.DateTimeOriginal := VStr date_str]>
              (<[Tag.DateTimeDigitized := VStr date_str]>
              (<[Tag.DateTime := VStr date_str]> old)))))
    true.

(** The body of the [try] in [set_exif_datetime].  [new_dt] is the cell of
    the row; formatting a missing one raises. *)
Definition set_exif_datetime_body (fs : gmap string image)
    (image_path : string) (new_dt : option datetime) : res (gmap string image) :=
  img ← image_open fs image_path;
  date_str ← match new_dt with
             | Some dt => Ok (exif_format dt)
             | None => Raise AttributeError
             end;
  if saves img then Ok (<[image_path := saved img date_str]> fs)
  else Raise OSError.

(** [set_exif_datetime]: an exception is printed and the file left as it
    was. *)
Definition set_exif_datetime (fs : gmap string image)
    (image_path : string) (new_dt : option datetime) : gmap string image :=
  match set_exif_datetime_body fs image_path new_dt with
  | Ok fs' => fs'
  | Raise _ => fs
  end.

(** ** [main]: scanning *)

Definition lower_char (c : ascii) : ascii :=
  let n := Char.code c in
  if in_range 65 90 n || (in_range 192 222 n && negb (n =? 215))
  then ascii_of_N (Z.to_N (n + 32)) else c.

Fixpoint lower (s : string) : string :=
  match s with
  | EmptyString => EmptyString
  | String c s' => String (lower_char c) (lower s')
  end.

Definition endswith (s suffix : string) : bool :=
  let n := String.length s in
  let k := String.length suffix in
  (k <=? n)%nat && String.eqb (String.substring (n - k) k s) suffix.

Definition is_jpg (f : string) : bool := endswith (lower f) ".jpg".

(** [sorted([f for f in os.listdir(folder) if f.lower().endswith(".jpg")])]. *)
Definition jpg_files (listing : list string) : list string :=
  merge_sort str_le (filter (λ f, is_jpg f = true) listing).

(** [fname.startswith("/")]. *)
Definition is_absolute (fname : string) : bool :=
  match fname with
  | String c _ => Char.eqb c "/"
  | EmptyString => false
  end.

(** [os.path.join(folder, fname)] with the separator [/]. *)
Definition path_join (folder fname : string) : string :=
  if is_absolute fname then fname
  else if endswith folder "/" || String.eqb folder "" then folder +:+ fname
  else (folder +:+ "/") +:+ fname.

(** The loop that collects [data]. *)
Fixpoint collect (fs : gmap string image) (folder : string)
    (files : list string) : res (list Row) :=
  match files with
  | [] => Ok []
  | fname :: files' =>
      let full_path := path_join folder fname in
      dt ← get_exif_datetime fs full_path;
      data ← collect fs folder files';
      Ok (mkRow fname full_path (extract_ym fname) dt :: data)
  end.

Definition scan (fs : gmap string image) (folder : string)
    (listing : list string) : res (list Row) :=
  collect fs folder (jpg_files listing).

(** ** [main]: preview and write *)

(** The two markers of the preview, 【补】 and 【原】. *)
Inductive flag : Set := FlagFilled | FlagOriginal.

Definition flag_of (dt : datetime) : flag :=
  if (second dt =? 0) && ((minute dt =? 0) || (minute dt =? 30))
  then FlagFilled else FlagOriginal.

(** One line of the preview: marker, file name, formatted date.  A row
    without date has no [second] to look at. *)
Definition preview_line (row : Row) : res (flag * string * string) :=
  match date row with
  | Some dt => Ok (flag_of dt, file row, preview_format dt)
  | None => Raise AttributeError
  end.

Fixpoint preview (rows : list Row) : res (list (flag * string * string)) :=
  match rows with
  | [] => Ok []
  | row :: rows' =>
      line ← preview_line row; lines ← preview rows'; Ok (line :: lines)
  end.

(** [on_confirm]: the store after the loop and the calls of
    [set_exif_datetime] it made, in order. *)
Fixpoint on_confirm (fs : gmap string image) (rows : list Row)
    : res (gmap string image * list (string * option datetime)) :=
  match rows with
  | [] => Ok (fs, [])
  | row :: rows' =>
      original ← get_exif_datetime fs (path row);
      match original with
      | None =>
          '(fs', calls) ← on_confirm
                            (set_exif_datetime fs (path row) (date row)) rows';
          Ok (fs', (path row, date row) :: calls)
      | Some _ => on_confirm fs rows'
      end
  end.

(** ** Notions of the statements *)

(** The timestamp that the specification gives to fill-sequence index [i]
    in the month [y]-[m]. *)
Definition slot_time (y m : Z) (i : nat) : datetime :=
  mkDatetime y m 1 ((Z.of_nat i * 30 / 60) mod 24) ((Z.of_nat i * 30) mod 60) 0.

Definition missing (r : Row) : Prop := date r = None.

#[global] Instance missing_dec r : Decision (missing r).
Proof. unfold missing. apply _. Defined.

(** The rows after the loop, told row by row: [seq] is the number of
    missing dates met so far. *)
Fixpoint fill_rows (y m : Z) (seq : nat) (rows : list Row) : list Row :=
  match rows with
  | [] => []
  | r :: rows' =>
      if isna (date r) then set_date (slot_time y m seq) r :: fill_rows y m (S seq) rows'
      else r :: fill_rows y m seq rows'
  end.

Definition valid_month (y m : Z) : Prop := 1 <= y <= 9999 ∧ 1 <= m <= 12.

(** [r'] is [r] with, at most, a date put where there was none. *)
Definition fills (r r' : Row) : Prop :=
  file r' = file r ∧ path r' = path r ∧ ym r' = ym r
  ∧ ∀ dt, date r = Some dt → r' = r.

(** A row as the scanner builds it from the store. *)
Definition scanned (fs : gmap string image) (folder : string)
    (fname : string) (r : Row) : Prop :=
  file r = fname ∧ path r = path_join folder fname ∧ ym r = extract_ym fname
  ∧ get_exif_datetime fs (path r) = Ok (date r).

(** The names of a directory listing: distinct, and none begins with the
    separator. *)
Definition listing_ok (listing : list string) : Prop :=
  NoDup listing ∧ Forall (λ f, is_absolute f = false) listing.

(** The row carries a key, and the key is one of [ks]. *)
Definition keyed_in (ks : list string) (r : Row) : Prop :=
  match ym r with
  | Some k => k ∈ ks
  | None => False
  end.

#[global] Instance keyed_in_dec ks r : Decision (keyed_in ks r).
Proof. unfold keyed_in. destruct (ym r); apply _. Defined.

Definition keyed (r : Row) : Prop := is_Some (ym r).

#[global] Instance keyed_dec r : Decision (keyed r).
Proof. unfold keyed. apply _. Defined.

(** The order of the output: by key, and by file name within a key. *)
Definition row_before (r1 r2 : Row) : Prop :=
  ∃ k1 k2, ym r1 = Some k1 ∧ ym r2 = Some k2
    ∧ (k1 ≠ k2 ∧ str_le k1 k2 ∨ k1 = k2 ∧ str_le (file r1) (file r2)).

(** ** Example folders *)

Definition dt_2024_05_20 : datetime := mkDatetime 2024 5 20 18 45 12.

Definition may_group : list Row :=
  [ mkRow "2024-05_003.jpg" "/p/2024-05_003.jpg" (Some "2024-05") None;
    mkRow "2024-05_002.jpg" "/p/2024-05_002.jpg" (Some "2024-05") (Some dt_2024_05_20);
    mkRow "2024-05_001.jpg" "/p/2024-05_001.jpg" (Some "2024-05") None ].

(** Fifty undated files of May 2024. *)
Definition fifty_group : list Row :=
  (λ i : nat,
     let name := "2024-05_" +:+ pad2 (Z.of_nat i) ".jpg" in
     mkRow name ("/p/" +:+ name) (Some "2024-05") None) <$> seq 0 50.

Definition dt_2024_01_15 : datetime := mkDatetime 2024 1 15 10 0 0.

Definition january : list Row :=
  [ mkRow "A-2024-01.jpg" "/p/A-2024-01.jpg" (Some "2024-01") (Some dt_2024_01_15);
    mkRow "B-2024-01.jpg" "/p/B-2024-01.jpg" (Some "2024-01") None ].

Definition january_filled : list Row :=
  [ mkRow "A-2024-01.jpg" "/p/A-2024-01.jpg" (Some "2024-01") (Some dt_2024_01_15);
    mkRow "B-2024-01.jpg" "/p/B-2024-01.jpg" (Some "2024-01")
      (Some (mkDatetime 2024 1 1 0 0 0)) ].

(** A folder of May 2024 with one file named after a thirteenth month. *)
Definition month13 : list Row :=
  [ mkRow "2024-05_001.jpg" "/p/2024-05_001.jpg" (Some "2024-05") None;
    mkRow "2024-13_001.jpg" "/p/2024-13_001.jpg" (Some "2024-13") None ].

Definition img_undated : image := mkImage (Ok None) true.

Definition img_dated : image :=
  mkImage (Ok (Some {[ Tag.DateTimeOriginal := VStr "2024:01:15 10:00:00" ]})) true.

Definition pics : gmap string image :=
  <["/p/A-2024-01.jpg" := img_dated]>
    (<["/p/B-2024-01.jpg" := img_undated]>
       (<["/p/holiday.jpg" := img_undated]> ∅)).

Definition pics_listing : list string :=
  ["holiday.jpg"; "B-2024-01.jpg"; "notes.txt"; "A-2024-01.jpg"].

Definition holiday_row : Row := mkRow "holiday.jpg" "/p/holiday.jpg" None None.

Definition pics_data : list Row := january ++ [holiday_row].

(** The store of [pics] after a confirmed run. *)
Definition pics_after : gmap string image :=
  set_exif_datetime pics "/p/B-2024-01.jpg" (Some (mkDatetime 2024 1 1 0 0 0)).

Definition pics_calls : list (string * option datetime) :=
  [("/p/B-2024-01.jpg", Some (mkDatetime 2024 1 1 0 0 0))].

(** The rows of a second scan of [pics], after the run. *)
Definition pics_data_again : list Row := january_filled ++ [holiday_row].

(** A picture whose name holds the date 2024-05-12 without hyphens before
    a counter: the pattern finds the key 0512-01 in it. *)
Definition row_0512 : Row :=
  mkRow "IMG_20240512-01.jpg" "/p/IMG_20240512-01.jpg" (Some "0512-01") None.

Definition dt_0512 : datetime := mkDatetime 512 1 1 0 0 0.

Definition pics_0512 : gmap string image :=
  {[ "/p/IMG_20240512-01.jpg" := img_undated ]}.

(** * Properties *)

(** ** The exception monad *)

Lemma bind_Ok {A B} (f : A → res B) (m : res A) (b : B) :
  m ≫= f = Ok b ↔ ∃ a, m = Ok a ∧ f a = Ok b.
Proof.
  destruct m as [a|e]; simpl; split.
  - eauto.
  - by intros (? & [= <-] & ?).
  - done.
  - by intros (? & [=] & _).
Qed.

Ltac bind_inv :=
  repeat match goal with
  | H : _ ≫= _ = Ok _ |- _ =>
      apply bind_Ok in H; destruct H as (? & ? & H)
  | H : Ok _ = Ok _ |- _ => injection H as H
  | H : Raise _ = Ok _ |- _ => discriminate H
  end.

(** ** Digits *)

Ltac bool_lia :=
  repeat match goal with
  | |- context [Z.leb ?a ?b] => destruct (Z.leb_spec a b)
  | |- context [Z.eqb ?a ?b] => destruct (Z.eqb_spec a b)
  end; simpl; try reflexivity; try lia.

Lemma digit_cases (d : Z) :
  0 <= d <= 9 →
  d = 0 ∨ d = 1 ∨ d = 2 ∨ d = 3 ∨ d = 4 ∨ d = 5 ∨ d = 6 ∨ d = 7 ∨ d = 8 ∨ d = 9.
Proof. lia. Qed.

Lemma of_digit_is_digit (d : Z) :
  0 <= d <= 9 → Char.is_digit (Char.of_digit d) = true.
Proof.
  intros H. destruct (digit_cases d H) as [->|H']; [done|].
  repeat (destruct H' as [->|H']; [done|]). by subst.
Qed.

Lemma of_digit_val (d : Z) :
  0 <= d <= 9 → Char.digit_val (Char.of_digit d) = d.
Proof.
  intros H. destruct (digit_cases d H) as [->|H']; [done|].
  repeat (destruct H' as [->|H']; [done|]). by subst.
Qed.

Lemma digit_not_space (c : ascii) :
  Char.is_digit c = true → Char.is_space c = false.
Proof.
  unfold Char.is_digit, Char.is_space. generalize (Char.code c). intros n.
  bool_lia.
Qed.

Lemma pad2_digits (n : Z) :
  0 <= n <= 99 → 0 <= n / 10 <= 9 ∧ 0 <= n mod 10 <= 9 ∧ 10 * (n / 10) + n mod 10 = n.
Proof. intros H. Z.div_mod_to_equations. lia. Qed.

Section strptime_strftime.
Import Strptime.

Lemma Y_pad4 (n : Z) (k : string) : 0 <= n <= 9999 → Y (pad4 n k) = Some (n, k).
Proof.
  intros H. unfold Y, pad4, pad2, two.
  assert (0 <= n / 1000 <= 9 ∧ 0 <= n / 100 mod 10 <= 9
          ∧ 0 <= n mod 100 / 10 <= 9 ∧ 0 <= n mod 100 mod 10 <= 9
          ∧ 10 * (10 * (10 * (n / 1000) + n / 100 mod 10) + n mod 100 / 10)
            + n mod 100 mod 10 = n) as (Ha & Hb & Hc & Hd & Hn)
    by (Z.div_mod_to_equations; lia).
  rewrite !of_digit_is_digit, !of_digit_val by done. simpl. by rewrite Hn.
Qed.

Lemma digits12_pad2 ok2 ok1 (n : Z) (k : string) :
  0 <= n <= 99 → ok2 (n / 10) (n mod 10) = true →
  digits12 ok2 ok1 (pad2 n k) = Some (n, k).
Proof.
  intros H Hok. destruct (pad2_digits n H) as (Ha & Hb & Hn).
  unfold digits12, pad2, two.
  rewrite !of_digit_is_digit, !of_digit_val, Hok by done. simpl.
  by rewrite Hn.
Qed.

Lemma m_pad2 n k : 1 <= n <= 12 → m (pad2 n k) = Some (n, k).
Proof.
  intros H. apply digits12_pad2; [lia|].
  assert (n / 10 = 1 ∧ n mod 10 <= 2 ∨ n / 10 = 0 ∧ 1 <= n mod 10)
    as [[-> ?]|[-> ?]] by (Z.div_mod_to_equations; lia); bool_lia.
Qed.

Lemma d_pad2 n k : 1 <= n <= 31 → d (pad2 n k) = Some (n, k).
Proof.
  intros H. unfold d. rewrite digits12_pad2; [done|lia|].
  assert (n / 10 = 3 ∧ n mod 10 <= 1 ∨ n / 10 = 1 ∨ n / 10 = 2
          ∨ n / 10 = 0 ∧ 1 <= n mod 10)
    as [[-> ?]|[->|[->|[-> ?]]]] by (Z.div_mod_to_equations; lia); bool_lia.
Qed.

Lemma H_pad2 n k : 0 <= n <= 23 → H (pad2 n k) = Some (n, k).
Proof.
  intros Hn. apply digits12_pad2; [lia|].
  assert (n / 10 = 2 ∧ n mod 10 <= 3 ∨ n / 10 <= 1)
    as [[-> ?]|?] by (Z.div_mod_to_equations; lia); bool_lia.
Qed.

Lemma M_pad2 n k : 0 <= n <= 59 → M (pad2 n k) = Some (n, k).
Proof.
  intros Hn. apply digits12_pad2; [lia|].
  assert (n / 10 <= 5) by (Z.div_mod_to_equations; lia). bool_lia.
Qed.

Lemma S_pad2 n k : 0 <= n <= 59 → S (pad2 n k) = Some (n, k).
Proof.
  intros Hn. apply digits12_pad2; [lia|].
  assert (n / 10 <= 5) by (Z.div_mod_to_equations; lia). bool_lia.
Qed.

Lemma spaces_blank_pad2 n k :
  0 <= n <= 99 → spaces (String blank (pad2 n k)) = Some (pad2 n k).
Proof.
  intros Hn. destruct (pad2_digits n Hn) as (Ha & _). simpl.
  by rewrite digit_not_space by by apply of_digit_is_digit.
Qed.

Lemma lit_head c k : lit c (String c k) = Some k.
Proof. unfold lit, Char.eqb. by rewrite Ascii.eqb_refl. Qed.

Lemma valid_fields_ranges y mo dd h mi s :
  valid_fields y mo dd h mi s = true →
  1 <= y <= 9999 ∧ 1 <= mo <= 12 ∧ 1 <= dd <= 31
  ∧ 0 <= h <= 23 ∧ 0 <= mi <= 59 ∧ 0 <= s <= 59.
Proof.
  unfold valid_fields, in_range. rewrite !andb_true_iff, !Z.leb_le.
  intros. assert (days_in_month y mo <= 31); [|lia].
  unfold days_in_month. repeat case_match; lia.
Qed.

Lemma year_text_pad4 (n : Z) (k : string) : 1000 <= n → year_text n k = pad4 n k.
Proof.
  intros Hn. unfold year_text.
  destruct (Z.ltb_spec n 10); [lia|]. destruct (Z.ltb_spec n 100); [lia|].
  destruct (Z.ltb_spec n 1000); [lia|]. done.
Qed.

Lemma fields_strftime (dt : datetime) :
  valid_datetime dt = true → 1000 <= year dt →
  fields (exif_format dt)
  = Some (year dt, month dt, day dt, hour dt, minute dt, second dt).
Proof.
  intros Hv Hy. apply valid_fields_ranges in Hv.
  unfold fields, exif_format, strftime. rewrite year_text_pad4 by done.
  rewrite Y_pad4 by lia. cbn [mbind option_bind]. rewrite lit_head.
  cbn [mbind option_bind]. rewrite m_pad2 by lia.
  cbn [mbind option_bind]. rewrite lit_head.
  cbn [mbind option_bind]. rewrite d_pad2 by lia.
  cbn [mbind option_bind]. rewrite spaces_blank_pad2 by lia.
  cbn [mbind option_bind]. rewrite H_pad2 by lia.
  cbn [mbind option_bind]. rewrite lit_head.
  cbn [mbind option_bind]. rewrite M_pad2 by lia.
  cbn [mbind option_bind]. rewrite lit_head.
  cbn [mbind option_bind]. rewrite S_pad2 by lia. done.
Qed.
End strptime_strftime.

Lemma strptime_strftime (dt : datetime) :
  valid_datetime dt = true → 1000 <= year dt → strptime (exif_format dt) = Ok dt.
Proof.
  intros Hv Hy. unfold strptime. rewrite fields_strftime by done.
  unfold new_datetime. unfold valid_datetime in Hv. rewrite Hv. by destruct dt.
Qed.

(** ** The order of file names and keys *)

Lemma str_le_iff (a b : string) : str_le a b ↔ a = b ∨ String_as_OT.lt a b.
Proof.
  unfold str_le, String.leb.
  destruct (String.compare a b) eqn:E; split; try done.
  - intros _. left. by apply String_as_OT.cmp_eq.
  - intros _. right. by apply String_as_OT.cmp_lt.
  - intros [->|Hlt].
    + assert (String.compare b b = Eq) as Hb by by apply String_as_OT.cmp_eq.
      congruence.
    + apply String_as_OT.cmp_lt in Hlt. unfold String_as_OT.cmp in Hlt.
      congruence.
Qed.

#[global] Instance str_le_total : Total str_le.
Proof. intros a b. apply String.leb_total. Qed.

#[global] Instance str_le_trans : Transitive str_le.
Proof.
  intros a b c. rewrite !str_le_iff. intros [->|Hab] [->|Hbc]; auto.
  right. by eapply String_as_OT.lt_trans.
Qed.

#[global] Instance str_le_antisym : AntiSymm (=) str_le.
Proof. intros a b. apply String.leb_antisym. Qed.

#[global] Instance file_le_total : Total file_le.
Proof. intros r1 r2. apply str_le_total. Qed.

#[global] Instance file_le_trans : Transitive file_le.
Proof. intros r1 r2 r3. apply str_le_trans. Qed.

Lemma sort_values_sorted (group : list Row) : Sorted file_le (sort_values group).
Proof. apply Sorted_merge_sort, _. Qed.

Lemma sort_values_perm (group : list Row) : sort_values group ≡ₚ group.
Proof. apply merge_sort_Permutation. Qed.

Lemma sort_values_elem (group : list Row) (r : Row) :
  r ∈ sort_values group ↔ r ∈ group.
Proof. by rewrite sort_values_perm. Qed.

(** With distinct file names (one folder), the sorted group is the only
    arrangement of the rows in the order of the names. *)
Lemma sort_values_unique (group l : list Row) :
  NoDup (file <$> group) → Sorted file_le l → l ≡ₚ group →
  l = sort_values group.
Proof.
  intros Hnd Hs Hp.
  apply (Sorted_unique_strong file_le); [|done|apply sort_values_sorted|].
  - intros r1 r2 H1 H2 H12 H21.
    assert (file r1 = file r2) as Hf by by apply (anti_symm str_le).
    rewrite Hp in H1. rewrite sort_values_elem in H2.
    apply list_elem_of_lookup in H1 as [i Hi], H2 as [j Hj].
    assert (i = j) as ->; [|congruence].
    eapply NoDup_lookup; [done| |].
    + by rewrite list_lookup_fmap, Hi.
    + by rewrite list_lookup_fmap, Hj, Hf.
  - by rewrite sort_values_perm.
Qed.

(** ** The fill loop *)

Lemma isna_missing (r : Row) : isna (date r) = true ↔ missing r.
Proof. unfold missing. destruct (date r); naive_solver. Qed.

Lemma new_datetime_month_start (y m : Z) :
  valid_month y m → new_datetime y m 1 0 0 0 = Ok (mkDatetime y m 1 0 0 0).
Proof.
  intros [Hy Hm]. unfold new_datetime, valid_fields, in_range, days_in_month.
  repeat case_match; bool_lia.
Qed.

Lemma new_datetime_month_start_inv (y m : Z) (dt : datetime) :
  new_datetime y m 1 0 0 0 = Ok dt → valid_month y m ∧ dt = mkDatetime y m 1 0 0 0.
Proof.
  unfold new_datetime. case_match eqn:Hv; [|done]. intros [= <-].
  apply valid_fields_ranges in Hv. unfold valid_month. split; [lia|done].
Qed.

Lemma new_datetime_month_start_raise (y m : Z) :
  ¬ valid_month y m → new_datetime y m 1 0 0 0 = Raise ValueError.
Proof.
  intros Hn. unfold new_datetime. case_match eqn:Hv; [|done].
  apply valid_fields_ranges in Hv. unfold valid_month in Hn. lia.
Qed.

Lemma replace_time_slot (y m : Z) (seq : nat) :
  valid_month y m →
  replace_time (mkDatetime y m 1 0 0 0)
    ((Z.of_nat seq * 30 / 60) mod 24) ((Z.of_nat seq * 30) mod 60) 0
  = Ok (slot_time y m seq).
Proof.
  intros [Hy Hm]. unfold replace_time, new_datetime, slot_time. simpl.
  assert (valid_fields y m 1 ((Z.of_nat seq * 30 / 60) mod 24)
            ((Z.of_nat seq * 30) mod 60) 0 = true) as ->; [|done].
  pose proof (Z.mod_pos_bound (Z.of_nat seq * 30 / 60) 24).
  pose proof (Z.mod_pos_bound (Z.of_nat seq * 30) 60).
  unfold valid_fields, in_range, days_in_month.
  repeat case_match; bool_lia.
Qed.

Lemma slot_time_valid (y m : Z) (seq : nat) :
  valid_month y m → valid_datetime (slot_time y m seq) = true.
Proof.
  intros Hv. pose proof (replace_time_slot y m seq Hv) as H.
  unfold replace_time, new_datetime in H. simpl in H.
  unfold valid_datetime. simpl. by case_match.
Qed.

Lemma fill_loop_rows (y m : Z) (rows pre : list Row) (seq : nat) :
  valid_month y m →
  fill_loop (mkDatetime y m 1 0 0 0)
    (enumerate_from seq (index_where (λ r, isna (date r)) (length pre) rows))
    (pre ++ rows)
  = Ok (pre ++ fill_rows y m seq rows).
Proof.
  intros Hv. revert pre seq.
  induction rows as [|r rows IH]; intros pre seq; [done|].
  cbn [index_where fill_rows]. destruct (isna (date r)).
  - cbn [enumerate_from fill_loop]. rewrite replace_time_slot by done.
    cbn [mbind res_mbind res_bind].
    replace (alter (set_date (slot_time y m seq)) (length pre) (pre ++ r :: rows))
      with ((pre ++ [set_date (slot_time y m seq) r]) ++ rows).
    + specialize (IH (pre ++ [set_date (slot_time y m seq) r]) (S seq)).
      rewrite length_app, Nat.add_1_r in IH. rewrite IH.
      by rewrite <-app_assoc.
    + rewrite <-app_assoc. symmetry.
      rewrite <-(Nat.add_0_r (length pre)). by rewrite alter_app_r.
  - specialize (IH (pre ++ [r]) seq).
    rewrite length_app, Nat.add_1_r, <-!app_assoc in IH. apply IH.
Qed.

Lemma length_fill_rows y m seq rows : length (fill_rows y m seq rows) = length rows.
Proof.
  revert seq. induction rows as [|r rows IH]; intros seq; [done|].
  simpl. destruct (isna (date r)); simpl; by rewrite IH.
Qed.

(** Row [j] after the loop: a dated row is the same, a row without date
    gets the slot whose number is the count of missing dates before it. *)
Lemma fill_rows_lookup y m seq rows (j : nat) (r : Row) :
  rows !! j = Some r →
  fill_rows y m seq rows !! j
  = Some (if isna (date r)
          then set_date (slot_time y m (seq + length (filter missing (take j rows)))) r
          else r).
Proof.
  revert seq j. induction rows as [|r0 rows IH]; intros seq j Hj; [done|].
  destruct j as [|j]; simpl in Hj.
  - injection Hj as ->. simpl. rewrite Nat.add_0_r. by destruct (isna (date r)).
  - cbn [fill_rows take]. destruct (isna (date r0)) eqn:Hna.
    + rewrite filter_cons_True by by apply isna_missing.
      simpl. rewrite (IH (S seq) j Hj). by rewrite Nat.add_succ_r.
    + rewrite filter_cons_False by (rewrite <-isna_missing; congruence).
      simpl. by rewrite (IH seq j Hj).
Qed.

Lemma filter_lookup_position {A} (P : A → Prop) `{∀ x, Decision (P x)}
    (l : list A) (i : nat) (x : A) :
  filter P l !! i = Some x →
  ∃ j, l !! j = Some x ∧ P x ∧ length (filter P (take j l)) = i.
Proof.
  revert i. induction l as [|a l IH]; intros i Hi; [done|].
  destruct (decide (P a)) as [Ha|Ha].
  - rewrite filter_cons_True in Hi by done. destruct i as [|i].
    + injection Hi as ->. by exists 0%nat.
    + destruct (IH i Hi) as (j & Hj & Hx & Hlen). exists (S j).
      simpl. rewrite filter_cons_True by done. simpl. by rewrite Hlen.
  - rewrite filter_cons_False in Hi by done.
    destruct (IH i Hi) as (j & Hj & Hx & Hlen). exists (S j).
    simpl. by rewrite filter_cons_False.
Qed.

Lemma fill_month_unfold (group : list Row) :
  fill_month group
  = match sort_values group with
    | [] => Raise IndexError
    | first :: _ =>
        match ym first with
        | None => Ok (sort_values group)
        | Some month_str =>
            '(y, m) ← parse_ym month_str;
            base_day ← new_datetime y m 1 0 0 0;
            fill_loop base_day (enumerate (na_idx (sort_values group)))
              (sort_values group)
        end
    end.
Proof.
  unfold fill_month. destruct (sort_values group) as [|first rest]; [done|].
  destruct (ym first); [|done].
  destruct (parse_ym _) as [[y m]|]; [|done]. simpl.
  destruct (new_datetime _ _ _ _ _ _); [|done]. simpl.
  by destruct (na_idx _).
Qed.

(** A group with a valid key is filled, and [fill_rows] tells how. *)
Lemma fill_month_valid (group : list Row) first rest k (y m : Z) :
  sort_values group = first :: rest → ym first = Some k →
  parse_ym k = Ok (y, m) → valid_month y m →
  fill_month group = Ok (fill_rows y m 0 (sort_values group)).
Proof.
  intros Hs Hk Hp Hv. rewrite fill_month_unfold, Hs, Hk, Hp. simpl.
  rewrite new_datetime_month_start by done.
  pose proof (fill_loop_rows y m (sort_values group) [] 0 Hv) as Hl.
  rewrite Hs in Hl. exact Hl.
Qed.

(** What a returning call of [fill_month] has done. *)
Lemma fill_month_inv (group out : list Row) :
  fill_month group = Ok out →
  ∃ first rest, sort_values group = first :: rest ∧
    match ym first with
    | None => out = sort_values group
    | Some k => ∃ y m, parse_ym k = Ok (y, m) ∧ valid_month y m
                       ∧ out = fill_rows y m 0 (sort_values group)
    end.
Proof.
  intros H. rewrite fill_month_unfold in H.
  destruct (sort_values group) as [|first rest] eqn:Hs; [done|].
  exists first, rest. split; [done|].
  destruct (ym first) as [k|] eqn:Hk; [|by injection H].
  destruct (parse_ym k) as [[y m]|] eqn:Hp; [|done]. simpl in H.
  destruct (new_datetime y m 1 0 0 0) as [base|] eqn:Hb; [|done]. simpl in H.
  apply new_datetime_month_start_inv in Hb as [Hv ->].
  exists y, m. split_and!; [done..|].
  rewrite <-Hs in H.
  pose proof (fill_loop_rows y m (sort_values group) [] 0 Hv) as Hl.
  simpl in Hl. unfold enumerate, na_idx in H. rewrite Hs in *. congruence.
Qed.

(** ** Rows before and after [fill_month] *)

Lemma fills_refl (r : Row) : fills r r.
Proof. by unfold fills. Qed.

Lemma fills_set_date (r : Row) (dt : datetime) : date r = None → fills r (set_date dt r).
Proof. intros Hd. unfold fills. split_and!; try done. congruence. Qed.

Lemma fill_rows_fills y m seq rows : Forall2 fills rows (fill_rows y m seq rows).
Proof.
  revert seq. induction rows as [|r rows IH]; intros seq; simpl; [constructor|].
  destruct (isna (date r)) eqn:Hna; constructor; auto using fills_refl.
  apply fills_set_date. by apply isna_missing.
Qed.

Lemma fill_rows_dated y m seq rows :
  Forall (λ r, is_Some (date r)) (fill_rows y m seq rows).
Proof.
  revert seq. induction rows as [|r rows IH]; intros seq; simpl; [constructor|].
  destruct (isna (date r)) eqn:Hna; constructor; auto.
  destruct (date r); [by eexists|done].
Qed.

Lemma fill_month_fills (group out : list Row) :
  fill_month group = Ok out → Forall2 fills (sort_values group) out.
Proof.
  intros H. apply fill_month_inv in H as (first & rest & Hs & H).
  destruct (ym first).
  - destruct H as (y & m & _ & _ & ->). apply fill_rows_fills.
  - subst out. apply Forall_Forall2_diag, Forall_forall. auto using fills_refl.
Qed.

Lemma fill_month_dated (group out : list Row) :
  Forall (λ r, is_Some (ym r)) group →
  fill_month group = Ok out → Forall (λ r, is_Some (date r)) out.
Proof.
  intros Hk H. apply fill_month_inv in H as (first & rest & Hs & H).
  assert (is_Some (ym first)) as [k Hfirst].
  { rewrite Forall_forall in Hk. apply Hk, sort_values_elem. rewrite Hs. by left. }
  rewrite Hfirst in H. destruct H as (y & m & _ & _ & ->). apply fill_rows_dated.
Qed.

Lemma py_int_raises (s : string) (e : exn) : py_int s = Raise e → e = ValueError.
Proof. unfold py_int. destruct s; [congruence|]. case_match; congruence. Qed.

Lemma parse_ym_raises (k : string) (e : exn) :
  parse_ym k = Raise e → e = ValueError.
Proof.
  unfold parse_ym. destruct (split hyphen k) as [|a [|b [|??]]]; try congruence.
  destruct (py_int a) as [y|e1] eqn:Ha; simpl.
  - destruct (py_int b) as [m|e2] eqn:Hb; simpl; [done|].
    intros [= <-]. by eapply py_int_raises.
  - intros [= <-]. by eapply py_int_raises.
Qed.

Lemma new_datetime_raises y mo d h mi s (e : exn) :
  new_datetime y mo d h mi s = Raise e → e = ValueError.
Proof. unfold new_datetime. case_match; congruence. Qed.

Lemma fill_month_raises (group : list Row) (e : exn) :
  group ≠ [] → fill_month group = Raise e → e = ValueError.
Proof.
  intros Hne. rewrite fill_month_unfold.
  destruct (sort_values group) as [|first rest] eqn:Hs.
  { destruct Hne. apply Permutation_nil. by rewrite <-Hs, sort_values_perm. }
  destruct (ym first) as [k|]; [|done].
  destruct (parse_ym k) as [[y m]|e1] eqn:Hp; simpl.
  - destruct (new_datetime y m 1 0 0 0) as [base|e2] eqn:Hb; simpl.
    + apply new_datetime_month_start_inv in Hb as [Hv ->].
      pose proof (fill_loop_rows y m (first :: rest) [] 0 Hv) as Hl.
      unfold enumerate, na_idx. cbn [app length] in Hl. by rewrite Hl.
    + intros [= <-]. by eapply new_datetime_raises.
  - intros [= <-]. by eapply parse_ym_raises.
Qed.

(** ** Groups *)

Lemma elem_of_group_keys (df : list Row) (k : string) :
  k ∈ group_keys df ↔ ∃ r, r ∈ df ∧ ym r = Some k.
Proof.
  unfold group_keys.
  by rewrite merge_sort_Permutation, elem_of_remove_dups, list_elem_of_omap.
Qed.

Lemma NoDup_group_keys (df : list Row) : NoDup (group_keys df).
Proof.
  unfold group_keys. rewrite merge_sort_Permutation. apply NoDup_remove_dups.
Qed.

Lemma group_nonempty (df : list Row) (k : string) :
  k ∈ group_keys df → filter (has_ym k) df ≠ [].
Proof.
  intros (r & Hr & Hk)%elem_of_group_keys Hnil.
  assert (r ∈ filter (has_ym k) df) as Hin by by apply list_elem_of_filter.
  rewrite Hnil in Hin. by apply not_elem_of_nil in Hin.
Qed.

Lemma apply_groups_Ok f (groups : list (string * list Row)) (out : list Row) :
  apply_groups f groups = Ok out ↔
  ∃ outs, Forall2 (λ g o, f g.2 = Ok o) groups outs ∧ out = mjoin outs.
Proof.
  revert out. induction groups as [|[k g] groups IH]; intros out; simpl.
  - split.
    + intros [= <-]. exists []. by split; [constructor|].
    + intros (outs & Hf & ->). by inv Hf.
  - split.
    + intros H. bind_inv. subst out.
      match goal with H : apply_groups _ _ = Ok _ |- _ =>
        apply IH in H as (outs & Hf & ->) end.
      eexists (_ :: outs). split; [by constructor|done].
    + intros (outs & Hf & ->). inv Hf. simpl in *.
      match goal with H : f g = Ok _ |- _ => rewrite H end. simpl.
      assert (apply_groups f groups = Ok (mjoin l')) as ->; [|done].
      apply IH. eauto.
Qed.

Lemma apply_groups_Raise f (groups : list (string * list Row)) (E : exn) :
  Forall (λ g, ∀ e, f g.2 = Raise e → e = E) groups →
  Exists (λ g, ∃ e, f g.2 = Raise e) groups →
  apply_groups f groups = Raise E.
Proof.
  induction 1 as [|[k g] groups Hg Hgs IH]; intros Hex; [by inv Hex|].
  simpl in *. destruct (f g) as [o|e] eqn:Hf; simpl.
  - apply Exists_cons in Hex as [[e He]|Hex]; [simpl in He; congruence|].
    by rewrite IH.
  - by rewrite (Hg e).
Qed.

(** The calls that [filled] makes: one per key, on the rows of that key. *)
Lemma filled_Ok (df out : list Row) :
  filled df = Ok out ↔
  ∃ outs, Forall2 (λ k o, fill_month (filter (has_ym k) df) = Ok o)
            (group_keys df) outs
          ∧ out = mjoin outs.
Proof.
  unfold filled, groupby_ym. rewrite apply_groups_Ok.
  split; intros (outs & Hf & ->); exists outs; (split; [|done]).
  - by apply Forall2_fmap_l in Hf.
  - by apply Forall2_fmap_l.
Qed.

Lemma filled_group (df out : list Row) (k : string) :
  filled df = Ok out → k ∈ group_keys df →
  ∃ o, fill_month (filter (has_ym k) df) = Ok o ∧ o ⊆ out.
Proof.
  intros (outs & Hf & ->)%filled_Ok (i & Hi)%list_elem_of_lookup.
  destruct (Forall2_lookup_l _ _ _ _ _ Hf Hi) as (o & Ho & Hfill).
  exists o. split; [done|]. intros r Hr.
  apply list_elem_of_join. exists o. split; [done|].
  by eapply list_elem_of_lookup_2.
Qed.

Lemma filled_elem (df out : list Row) (r' : Row) :
  filled df = Ok out → r' ∈ out →
  ∃ k o, k ∈ group_keys df ∧ fill_month (filter (has_ym k) df) = Ok o ∧ r' ∈ o.
Proof.
  intros (outs & Hf & ->)%filled_Ok (o & Hr & Ho)%list_elem_of_join.
  apply list_elem_of_lookup in Ho as [i Hi].
  destruct (Forall2_lookup_r _ _ _ _ _ Hf Hi) as (k & Hk & Hfill).
  exists k, o. split_and!; [|done..]. by eapply list_elem_of_lookup_2.
Qed.

Lemma filled_raises (df : list Row) (k : string) (e : exn) :
  k ∈ group_keys df → fill_month (filter (has_ym k) df) = Raise e →
  filled df = Raise ValueError.
Proof.
  intros Hk He. unfold filled. apply apply_groups_Raise.
  - unfold groupby_ym. apply Forall_fmap, Forall_forall. intros k' Hk' e' He'.
    simpl in He'. eapply fill_month_raises; [|done]. by apply group_nonempty.
  - unfold groupby_ym. apply Exists_fmap, Exists_exists.
    exists k. split; [done|]. by exists e.
Qed.

Lemma group_first_key (group : list Row) (k : string) first rest :
  Forall (has_ym k) group → sort_values group = first :: rest → ym first = Some k.
Proof.
  intros Hk Hs. rewrite Forall_forall in Hk. apply Hk, sort_values_elem.
  rewrite Hs. by left.
Qed.

Lemma sort_values_nonempty (group : list Row) :
  group ≠ [] → ∃ first rest, sort_values group = first :: rest.
Proof.
  intros Hne. destruct (sort_values group) as [|first rest] eqn:Hs; [|eauto].
  destruct Hne. apply Permutation_nil. by rewrite <-Hs, sort_values_perm.
Qed.

(** A month group with a valid key: what [fill_month] returns. *)
Lemma fill_month_group (group : list Row) (k : string) (y m : Z) :
  group ≠ [] → Forall (has_ym k) group →
  parse_ym k = Ok (y, m) → valid_month y m →
  fill_month group = Ok (fill_rows y m 0 (sort_values group)).
Proof.
  intros Hne Hk Hp Hv.
  destruct (sort_values_nonempty group Hne) as (first & rest & Hs).
  eapply fill_month_valid; eauto using group_first_key.
Qed.

(** The [i]-th row without date sits at some position [j] of the sorted
    group, and after the loop that position holds it with slot [i]. *)
Lemma fill_rows_nth_missing y m (rows : list Row) (i : nat) (r : Row) :
  filter missing rows !! i = Some r →
  ∃ j, rows !! j = Some r
       ∧ length (filter missing (take j rows)) = i
       ∧ fill_rows y m 0 rows !! j = Some (set_date (slot_time y m i) r).
Proof.
  intros Hi. apply filter_lookup_position in Hi as (j & Hj & Hm & Hlen).
  exists j. split_and!; [done..|].
  rewrite (fill_rows_lookup y m 0 rows j r Hj). simpl. rewrite Hlen.
  apply isna_missing in Hm. by rewrite Hm.
Qed.

(** ** The store *)

Lemma find_date_absent (items : list (Z * exif_value)) :
  Tag.DateTimeOriginal ∉ items.*1 → find_date items = Ok None.
Proof.
  induction items as [|[tag v] items IH]; intros Hn; [done|].
  simpl in *. apply not_elem_of_cons in Hn as [Hne Hn].
  unfold is_DateTimeOriginal. destruct (Z.eqb_spec tag Tag.DateTimeOriginal); [done|].
  by apply IH.
Qed.

Lemma find_date_present (items : list (Z * exif_value)) (v : exif_value) :
  NoDup items.*1 → (Tag.DateTimeOriginal, v) ∈ items →
  find_date items = (dt ← strptime_value v; Ok (Some dt)).
Proof.
  induction items as [|[tag v'] items IH]; intros Hnd Hin; [by inv Hin|].
  simpl in *. apply NoDup_cons in Hnd as [Hnotin Hnd].
  unfold is_DateTimeOriginal. destruct (Z.eqb_spec tag Tag.DateTimeOriginal) as [->|Hne].
  - apply elem_of_cons in Hin as [Heq|Hin]; [by injection Heq as <-|].
    destruct Hnotin. apply list_elem_of_fmap. by exists (Tag.DateTimeOriginal, v).
  - apply elem_of_cons in Hin as [Heq|Hin]; [|by apply IH].
    injection Heq as Htag _. by destruct Hne.
Qed.

(** The loop over the items finds what the dictionary holds under the tag. *)
Lemma find_date_lookup (tags : gmap Z exif_value) :
  find_date (map_to_list tags)
  = match tags !! Tag.DateTimeOriginal with
    | Some v => dt ← strptime_value v; Ok (Some dt)
    | None => Ok None
    end.
Proof.
  destruct (tags !! Tag.DateTimeOriginal) as [v|] eqn:Hl.
  - apply find_date_present; [apply NoDup_fst_map_to_list|].
    by apply elem_of_map_to_list.
  - apply find_date_absent. intros ([tag v] & Heq & Hin)%list_elem_of_fmap.
    simpl in Heq. subst tag. apply elem_of_map_to_list in Hin. congruence.
Qed.

Lemma get_exif_datetime_total (fs : gmap string image) (p : string) :
  ∃ v, get_exif_datetime fs p = Ok v
       ∧ ∀ e, get_exif_datetime_body fs p = Raise e → v = None.
Proof.
  unfold get_exif_datetime, try_except.
  destruct (get_exif_datetime_body fs p) as [v|e].
  - exists v. by split.
  - exists None. by split.
Qed.

Lemma get_exif_datetime_local (fs fs' : gmap string image) (p : string) :
  fs' !! p = fs !! p → get_exif_datetime fs' p = get_exif_datetime fs p.
Proof.
  intros H. unfold get_exif_datetime, get_exif_datetime_body, image_open.
  by rewrite H.
Qed.

Lemma set_exif_datetime_other (fs : gmap string image) (p q : string) new_dt :
  p ≠ q → set_exif_datetime fs q new_dt !! p = fs !! p.
Proof.
  intros Hne. unfold set_exif_datetime, set_exif_datetime_body, image_open.
  destruct (fs !! q) as [img|]; simpl; [|done].
  destruct new_dt; simpl; [|done].
  destruct (saves img); [|done]. by apply lookup_insert_ne.
Qed.

(** A date that was saved is the date that is read. *)
Lemma get_after_set (fs : gmap string image) (p : string) (img : image)
    (dt : datetime) :
  fs !! p = Some img → saves img = true → valid_datetime dt = true →
  1000 <= year dt →
  get_exif_datetime (set_exif_datetime fs p (Some dt)) p = Ok (Some dt).
Proof.
  intros Hp Hs Hv Hy.
  unfold set_exif_datetime, set_exif_datetime_body, image_open.
  rewrite Hp. simpl. rewrite Hs.
  unfold get_exif_datetime, get_exif_datetime_body, image_open.
  rewrite lookup_insert_eq. simpl. rewrite find_date_lookup.
  rewrite lookup_insert_eq. simpl. by rewrite strptime_strftime.
Qed.

(** ** The writer's loop *)

Lemma on_confirm_total (fs : gmap string image) (rows : list Row) :
  ∃ fs' calls, on_confirm fs rows = Ok (fs', calls).
Proof.
  revert fs. induction rows as [|row rows IH]; intros fs; simpl; [eauto|].
  destruct (get_exif_datetime_total fs (path row)) as (v & -> & _). simpl.
  destruct v as [dt|].
  - apply IH.
  - destruct (IH (set_exif_datetime fs (path row) (date row)))
      as (fs' & calls & ->). simpl. eauto.
Qed.

(** The loop leaves alone the files it does not visit, and calls the
    writer only for rows it visits. *)
Lemma on_confirm_frame (fs fs' : gmap string image) (rows : list Row) calls :
  on_confirm fs rows = Ok (fs', calls) →
  (∀ p, p ∉ path <$> rows → fs' !! p = fs !! p)
  ∧ (∀ c, c ∈ calls → ∃ row, row ∈ rows ∧ c = (path row, date row)).
Proof.
  revert fs fs' calls. induction rows as [|row rows IH]; intros fs fs' calls H.
  { simpl in H. injection H as <- <-. split; [done|]. by intros c ?%elem_of_nil. }
  simpl in H. destruct (get_exif_datetime_total fs (path row)) as (v & Hv & _).
  rewrite Hv in H. simpl in H. destruct v as [dt|].
  - apply IH in H as [Hfs Hcalls]. split.
    + intros p Hp. apply Hfs. intros Hin. apply Hp. rewrite fmap_cons. by right.
    + intros c Hc. destruct (Hcalls c Hc) as (r & Hr & ->).
      exists r. split; [by right|done].
  - destruct (on_confirm _ rows) as [[fs1 calls1]|] eqn:Hrec; [|done].
    simpl in H. injection H as <- <-. apply IH in Hrec as [Hfs Hcalls]. split.
    + intros p Hp. rewrite fmap_cons in Hp. apply not_elem_of_cons in Hp as [Hne Hp].
      rewrite (Hfs p Hp). by apply set_exif_datetime_other.
    + intros c [->|Hc]%elem_of_cons.
      * exists row. split; [by left|done].
      * destruct (Hcalls c Hc) as (r & Hr & ->). exists r. split; [by right|done].
Qed.

Lemma on_confirm_app (fs : gmap string image) (l1 l2 : list Row) :
  on_confirm fs (l1 ++ l2)
  = '(fs1, c1) ← on_confirm fs l1;
    '(fs2, c2) ← on_confirm fs1 l2;
    Ok (fs2, c1 ++ c2).
Proof.
  revert fs. induction l1 as [|row l1 IH]; intros fs; simpl.
  - by destruct (on_confirm fs l2) as [[??]|].
  - destruct (get_exif_datetime fs (path row)) as [[dt|]|]; simpl; [apply IH| |done].
    rewrite IH. destruct (on_confirm _ l1) as [[fs1 c1]|]; simpl; [|done].
    by destruct (on_confirm fs1 l2) as [[fs2 c2]|].
Qed.

(** The row in the middle of the loop: its file is written if and only if
    the date read back at that moment is missing. *)
Lemma on_confirm_middle (fs fs' : gmap string image) pre row post calls :
  NoDup (path <$> (pre ++ row :: post)) →
  on_confirm fs (pre ++ row :: post) = Ok (fs', calls) →
  ∃ fs1 c1, on_confirm fs pre = Ok (fs1, c1)
    ∧ get_exif_datetime fs1 (path row) = get_exif_datetime fs (path row)
    ∧ (path row ∈ calls.*1 ↔ get_exif_datetime fs1 (path row) = Ok None)
    ∧ ((path row, date row) ∈ calls ↔ get_exif_datetime fs1 (path row) = Ok None).
Proof.
  intros Hnd H. rewrite on_confirm_app in H.
  destruct (on_confirm fs pre) as [[fs1 c1]|] eqn:Hpre; [|done]. simpl in H.
  exists fs1, c1. split; [done|].
  rewrite fmap_app, fmap_cons in Hnd.
  apply NoDup_app in Hnd as (_ & Hdisj & Hnd). apply NoDup_cons in Hnd as [Hpost _].
  assert (path row ∉ path <$> pre) as Hnotpre.
  { intros Hin. apply (Hdisj _ Hin). by left. }
  destruct (on_confirm_frame _ _ _ _ Hpre) as [Hfs1 Hc1].
  split; [apply get_exif_datetime_local; by apply Hfs1|].
  assert (path row ∉ c1.*1) as Hn1.
  { intros (c & Hc & Hin)%list_elem_of_fmap. destruct (Hc1 c Hin) as (r & Hr & ->).
    simpl in Hc. apply Hnotpre. rewrite Hc. by apply list_elem_of_fmap_2. }
  simpl in H. destruct (get_exif_datetime_total fs1 (path row)) as (v & Hv & _).
  rewrite Hv in H. simpl in H. rewrite Hv. destruct v as [dt|].
  - destruct (on_confirm fs1 post) as [[fs2 c2]|] eqn:Hrest; [|done].
    simpl in H. injection H as <- <-.
    destruct (on_confirm_frame _ _ _ _ Hrest) as [_ Hc2].
    assert (path row ∉ (c1 ++ c2).*1) as Hn.
    { rewrite fmap_app. intros [?|Hin]%elem_of_app; [done|].
      apply list_elem_of_fmap in Hin as (c & Hc & Hin).
      destruct (Hc2 c Hin) as (r & Hr & ->). simpl in Hc.
      apply Hpost. rewrite Hc. by apply list_elem_of_fmap_2. }
    split; (split; [|done]); intros Hin; destruct Hn; [done|].
    apply list_elem_of_fmap. by exists (path row, date row).
  - destruct (on_confirm _ post) as [[fs2 c2]|] eqn:Hrest; [|done].
    simpl in H. injection H as <- <-.
    assert ((path row, date row) ∈ c1 ++ (path row, date row) :: c2) as Hin.
    { apply elem_of_app. right. by left. }
    split; (split; [done|]); intros _; [|done].
    apply list_elem_of_fmap. by exists (path row, date row).
Qed.

(** ** The scanner *)

Lemma collect_total (fs : gmap string image) (folder : string) (files : list string) :
  ∃ data, collect fs folder files = Ok data ∧ Forall2 (scanned fs folder) files data.
Proof.
  induction files as [|fname files (data & Hdata & Hall)]; simpl.
  - exists []. by split; [|constructor].
  - destruct (get_exif_datetime_total fs (path_join folder fname)) as (v & Hv & _).
    rewrite Hv, Hdata. simpl. eexists. split; [done|].
    constructor; [|done]. by unfold scanned.
Qed.

Lemma path_join_inj (folder a b : string) :
  is_absolute a = false → is_absolute b = false →
  path_join folder a = path_join folder b → a = b.
Proof.
  unfold path_join. intros -> ->. case_match; apply String.app_inj.
Qed.

Lemma jpg_files_ok (listing : list string) :
  listing_ok listing → listing_ok (jpg_files listing).
Proof.
  intros [Hnd Hall]. unfold jpg_files, listing_ok.
  rewrite merge_sort_Permutation. split.
  - eapply sublist_NoDup; [done|]. apply sublist_filter.
  - apply Forall_forall. intros f [_ Hf]%list_elem_of_filter.
    rewrite Forall_forall in Hall. by apply Hall.
Qed.

Lemma scan_total (fs : gmap string image) (folder : string) (listing : list string) :
  ∃ data, scan fs folder listing = Ok data
          ∧ Forall2 (scanned fs folder) (jpg_files listing) data.
Proof. apply collect_total. Qed.

Lemma scanned_paths_NoDup fs folder (files : list string) (data : list Row) :
  listing_ok files → Forall2 (scanned fs folder) files data →
  NoDup (path <$> data).
Proof.
  intros [Hnd Hall] Hsc.
  assert (path <$> data = path_join folder <$> files) as ->.
  { clear Hnd Hall. induction Hsc as [|f r files data (_ & Hp & _) _ IH]; [done|].
    csimpl. by rewrite Hp, IH. }
  apply NoDup_fmap_2_strong; [|done]. intros a b Ha Hb.
  rewrite Forall_forall in Hall. apply path_join_inj; by apply Hall.
Qed.

Lemma NoDup_fmap_elem_inj {A B} (f : A → B) (l : list A) (x y : A) :
  NoDup (f <$> l) → x ∈ l → y ∈ l → f x = f y → x = y.
Proof.
  intros Hnd [i Hi]%list_elem_of_lookup [j Hj]%list_elem_of_lookup Hf.
  assert (i = j) as ->; [|congruence].
  eapply NoDup_lookup; [done| |].
  - by rewrite list_lookup_fmap, Hi.
  - by rewrite list_lookup_fmap, Hj, Hf.
Qed.

(** Every row of the output is a row of the input, filled at most. *)
Lemma filled_from (df out : list Row) (r' : Row) :
  filled df = Ok out → r' ∈ out → ∃ r, r ∈ df ∧ fills r r'.
Proof.
  intros Hf Hr'.
  destruct (filled_elem df out r' Hf Hr') as (k & o & Hk & Ho & Hin).
  apply fill_month_fills in Ho.
  apply list_elem_of_lookup in Hin as [j Hj].
  destruct (Forall2_lookup_r _ _ _ _ _ Ho Hj) as (r & Hr & Hfills).
  exists r. split; [|done].
  by apply list_elem_of_lookup_2, sort_values_elem, list_elem_of_filter in Hr
    as [_ Hr].
Qed.

Lemma fills_paths (l l' : list Row) : Forall2 fills l l' → path <$> l' = path <$> l.
Proof. induction 1 as [|r r' l l' (_ & Hp & _) _ IH]; [done|]. csimpl. by rewrite Hp, IH. Qed.

Lemma fill_month_paths (group out : list Row) :
  fill_month group = Ok out → path <$> out ≡ₚ path <$> group.
Proof.
  intros Ho%fill_month_fills. rewrite (fills_paths _ _ Ho).
  by rewrite sort_values_perm.
Qed.

(** Distinct paths stay distinct through the filler. *)
Lemma filled_paths_NoDup (df out : list Row) :
  NoDup (path <$> df) → filled df = Ok out → NoDup (path <$> out).
Proof.
  intros Hnd (outs & Hf & ->)%filled_Ok.
  pose proof (NoDup_group_keys df) as Hkeys.
  induction Hf as [|k o keys outs Ho Hf IH]; [constructor|].
  apply NoDup_cons in Hkeys as [Hk Hkeys]. specialize (IH Hkeys).
  change (mjoin (o :: outs)) with (o ++ mjoin outs).
  rewrite fmap_app. apply NoDup_app. split_and!; [|intros p Hp1 Hp2|done].
  - rewrite (fill_month_paths _ _ Ho).
    apply (sublist_NoDup _ (path <$> df)); [done|].
    apply fmap_sublist, sublist_filter.
  - rewrite (fill_month_paths _ _ Ho) in Hp1.
    apply list_elem_of_fmap in Hp1 as (r1 & -> & [Hk1 Hr1]%list_elem_of_filter).
    apply list_elem_of_fmap in Hp2 as (r2' & Hpath & (o2 & Hr2' & Ho2)%list_elem_of_join).
    apply list_elem_of_lookup in Ho2 as [i Hi].
    destruct (Forall2_lookup_r _ _ _ _ _ Hf Hi) as (k2 & Hk2 & Hfill2).
    apply fill_month_fills in Hfill2.
    apply list_elem_of_lookup in Hr2' as [j Hj].
    destruct (Forall2_lookup_r _ _ _ _ _ Hfill2 Hj) as (r2 & Hr2 & (_ & Hp2 & _)).
    apply list_elem_of_lookup_2, sort_values_elem, list_elem_of_filter in Hr2
      as [Hym2 Hr2].
    assert (r1 = r2) as ->.
    { apply (NoDup_fmap_elem_inj path df r1 r2 Hnd Hr1 Hr2). congruence. }
    assert (k = k2) as -> by (unfold has_ym in *; congruence).
    apply Hk. by eapply list_elem_of_lookup_2.
Qed.

Lemma scanned_date fs folder (files : list string) (data : list Row) (r : Row) :
  Forall2 (scanned fs folder) files data → r ∈ data →
  get_exif_datetime fs (path r) = Ok (date r).
Proof.
  intros Hsc [i Hi]%list_elem_of_lookup.
  by destruct (Forall2_lookup_r _ _ _ _ _ Hsc Hi) as (f & _ & (_ & _ & _ & Hget)).
Qed.

Lemma scanned_files fs folder (files : list string) (data : list Row) :
  Forall2 (scanned fs folder) files data → file <$> data = files.
Proof. induction 1 as [|f r files data (Hf & _) _ IH]; [done|]. csimpl. by rewrite Hf, IH. Qed.

(** ** A folder with three pictures *)

Lemma pics_listing_ok : listing_ok pics_listing.
Proof. split; [by apply (bool_decide_unpack _)|repeat constructor]. Qed.

Lemma pics_scan : scan pics "/p" pics_listing = Ok pics_data.
Proof. vm_compute. reflexivity. Qed.

Lemma pics_filled : filled pics_data = Ok january_filled.
Proof. vm_compute. reflexivity. Qed.

(** * The claims *)





(** Every row of the output belongs to a group, so it has a key. *)
Lemma filled_keyed (df out : list Row) (r' : Row) :
  filled df = Ok out → r' ∈ out → is_Some (ym r').
Proof.
  intros Hf Hr. destruct (filled_elem df out r' Hf Hr) as (k & o & Hk & Ho & Hin).
  apply fill_month_fills in Ho.
  apply list_elem_of_lookup in Hin as [j Hj].
  destruct (Forall2_lookup_r _ _ _ _ _ Ho Hj) as (r & Hr0 & (_ & _ & Hym & _)).
  apply list_elem_of_lookup_2, sort_values_elem, list_elem_of_filter in Hr0 as [Hr0 _].
  rewrite Hym, Hr0. by eexists.
Qed.

(** C2. A record whose date was present before the filler ran has the same
    date afterwards: every row of the output is a row of the input with,
    at most, a date put where there was none, and a dated row of a group
    is in the output as it was.  Dated rows take no slot: the slot of a
    row without date is the number of rows without date before it. *)
Theorem C2_dated_rows_untouched (df out : list Row) :
  filled df = Ok out →
  (∀ r', r' ∈ out →
     ∃ r, r ∈ df ∧ file r' = file r ∧ path r' = path r ∧ ym r' = ym r
          ∧ ∀ dt, date r = Some dt → r' = r)
  ∧ (∀ r dt, r ∈ df → date r = Some dt → is_Some (ym r) → r ∈ out)
  ∧ (∀ k, k ∈ group_keys df →
       let sorted := sort_values (filter (has_ym k) df) in
       ∃ o, fill_month (filter (has_ym k) df) = Ok o ∧
         ∀ (j : nat) (r : Row), sorted !! j = Some r →
           match date r with
           | Some _ => o !! j = Some r
           | None =>
               let n := Z.of_nat (length (filter missing (take j sorted))) in
               ∃ dt, o !! j = Some (set_date dt r)
                     ∧ hour dt = (n * 30 / 60) mod 24
                     ∧ minute dt = (n * 30) mod 60
                     ∧ second dt = 0
           end).
Proof.
  intros Hf. split_and!.
  - intros r' Hr'.
    destruct (filled_elem df out r' Hf Hr') as (k & o & Hk & Ho & Hin).
    apply fill_month_fills in Ho.
    apply list_elem_of_lookup in Hin as [j Hj].
    destruct (Forall2_lookup_r _ _ _ _ _ Ho Hj) as (r & Hr & Hfills).
    exists r. split; [|exact Hfills].
    by apply list_elem_of_lookup_2, sort_values_elem, list_elem_of_filter in Hr
      as [_ Hr].
  - intros r dt Hr Hdt [k Hk].
    assert (k ∈ group_keys df) as Hkeys by (apply elem_of_group_keys; eauto).
    destruct (filled_group df out k Hf Hkeys) as (o & Ho & Hsub).
    apply Hsub. apply fill_month_fills in Ho.
    assert (r ∈ sort_values (filter (has_ym k) df)) as [j Hj]%list_elem_of_lookup.
    { apply sort_values_elem, list_elem_of_filter. by split. }
    destruct (Forall2_lookup_l _ _ _ _ _ Ho Hj) as (r' & Hr' & (_ & _ & _ & Hsame)).
    rewrite (Hsame dt Hdt) in Hr'. by eapply list_elem_of_lookup_2.
  - intros k Hkeys sorted.
    destruct (filled_group df out k Hf Hkeys) as (o & Ho & _).
    exists o. split; [done|]. intros j r Hj.
    apply fill_month_inv in Ho as (first & rest & Hs & Ho).
    assert (ym first = Some k) as Hfirst.
    { eapply group_first_key; [|done]. apply Forall_forall.
      by intros ? [? _]%list_elem_of_filter. }
    rewrite Hfirst in Ho. destruct Ho as (y & m & _ & _ & ->).
    fold sorted. rewrite (fill_rows_lookup y m 0 sorted j r Hj).
    destruct (date r) eqn:Hd; simpl; [done|].
    eexists. split; [done|]. done.
Qed.

Lemma C2_dated_rows_untouched_witness :
  (∀ r', r' ∈ january_filled →
     ∃ r, r ∈ january ∧ file r' = file r ∧ path r' = path r ∧ ym r' = ym r
          ∧ ∀ dt, date r = Some dt → r' = r)
  ∧ (∀ r dt, r ∈ january → date r = Some dt → is_Some (ym r) → r ∈ january_filled)
  ∧ (∀ k, k ∈ group_keys january →
       let sorted := sort_values (filter (has_ym k) january) in
       ∃ o, fill_month (filter (has_ym k) january) = Ok o ∧
         ∀ (j : nat) (r : Row), sorted !! j = Some r →
           match date r with
           | Some _ => o !! j = Some r
           | None =>
               let n := Z.of_nat (length (filter missing (take j sorted))) in
               ∃ dt, o !! j = Some (set_date dt r)
                     ∧ hour dt = (n * 30 / 60) mod 24
                     ∧ minute dt = (n * 30) mod 60
                     ∧ second dt = 0
           end).
Proof.
  apply (C2_dated_rows_untouched january january_filled).
  vm_compute. reflexivity.
Defined.

(** C4, as the code has it.  A group whose key parses to a year and month
    that is no month of the calendar makes [fill_month] raise [ValueError],
    and with it the whole call of the filler: there is no output. *)
Theorem C4_invalid_month_raises (df : list Row) (r : Row) (k : string) (y m : Z) :
  r ∈ df → ym r = Some k → parse_ym k = Ok (y, m) → ¬ valid_month y m →
  fill_month (filter (has_ym k) df) = Raise ValueError
  ∧ filled df = Raise ValueError.
Proof.
  intros Hr Hk Hp Hv.
  assert (k ∈ group_keys df) as Hkeys by (apply elem_of_group_keys; eauto).
  assert (fill_month (filter (has_ym k) df) = Raise ValueError) as Hraise.
  { destruct (sort_values_nonempty _ (group_nonempty df k Hkeys))
      as (first & rest & Hs).
    assert (ym first = Some k) as Hfirst.
    { eapply group_first_key; [|done]. apply Forall_forall.
      by intros ? [? _]%list_elem_of_filter. }
    rewrite fill_month_unfold, Hs, Hfirst, Hp. simpl.
    by rewrite new_datetime_month_start_raise. }
  split; [done|]. by eapply filled_raises.
Qed.

Lemma C4_invalid_month_raises_witness :
  fill_month (filter (has_ym "2024-13") month13) = Raise ValueError
  ∧ filled month13 = Raise ValueError.
Proof.
  apply (C4_invalid_month_raises month13
           (mkRow "2024-13_001.jpg" "/p/2024-13_001.jpg" (Some "2024-13") None)
           "2024-13" 2024 13).
  - apply list_elem_of_In. simpl. auto.
  - reflexivity.
  - vm_compute. reflexivity.
  - unfold valid_month. lia.
Defined.

(** C4, as the specification has it, fails: the group of month 13 is not
    skipped, the run has no output at all. *)
Lemma C4_invalid_month_not_skipped :
  ¬ ∃ out, filled month13 = Ok out
           ∧ ∀ r, r ∈ month13 → ym r = Some "2024-13" → r ∈ out.
Proof.
  intros (out & Hout & _).
  assert (filled month13 = Raise ValueError) as H by (vm_compute; reflexivity).
  congruence.
Qed.

(** C3, at a folder where it fails.  [holiday.jpg] has no year-month in
    its name; it is scanned, and it is not among the rows that the
    filler returns. *)
Theorem C3_row_without_key_dropped :
  scan pics "/p" pics_listing = Ok pics_data
  ∧ holiday_row ∈ pics_data
  ∧ filled pics_data = Ok january_filled
  ∧ (holiday_row ∉ january_filled)
  ∧ length january_filled = 2%nat ∧ length pics_data = 3%nat.
Proof.
  split_and!; [apply pics_scan| |apply pics_filled| |done..].
  - by apply (bool_decide_unpack _).
  - by apply (bool_decide_unpack _).
Qed.

(** C5. On confirm, every row of the filler's output is visited once; the
    writer is called for its file if and only if the date read from the
    file at that moment is missing; a file whose date was present at the
    scan is never written. *)
Theorem C5_writes_only_missing (fs : gmap string image) (folder : string)
    (listing : list string) (data out : list Row) :
  listing_ok listing →
  scan fs folder listing = Ok data → filled data = Ok out →
  ∃ fs' calls, on_confirm fs out = Ok (fs', calls)
    ∧ (∀ pre row post, out = pre ++ row :: post →
         ∃ fs1 calls1, on_confirm fs pre = Ok (fs1, calls1)
           ∧ (path row ∈ calls.*1 ↔ get_exif_datetime fs1 (path row) = Ok None))
    ∧ (∀ r dt, r ∈ data → date r = Some dt → path r ∉ calls.*1).
Proof.
  intros Hok Hscan Hfill.
  destruct (scan_total fs folder listing) as (data' & Hscan' & Hsc).
  assert (data' = data) as -> by congruence.
  assert (NoDup (path <$> data)) as Hnd.
  { eapply scanned_paths_NoDup; [|done]. by apply jpg_files_ok. }
  assert (NoDup (path <$> out)) as Hndout by by eapply filled_paths_NoDup.
  destruct (on_confirm_total fs out) as (fs' & calls & Hconf).
  exists fs', calls. split_and!; [done| |].
  - intros pre row post ->.
    destruct (on_confirm_middle _ _ _ _ _ _ Hndout Hconf)
      as (fs1 & c1 & Hpre & _ & Hiff & _).
    by exists fs1, c1.
  - intros r dt Hr Hdt (c & Hc & Hin)%list_elem_of_fmap.
    destruct (on_confirm_frame _ _ _ _ Hconf) as [_ Hcalls].
    destruct (Hcalls c Hin) as (row & Hrow & ->). simpl in Hc.
    destruct (list_elem_of_split _ _ Hrow) as (pre & post & ->).
    destruct (on_confirm_middle _ _ _ _ _ _ Hndout Hconf)
      as (fs1 & c1 & Hpre & Hsame & Hiff & _).
    assert (get_exif_datetime fs (path row) = Ok None) as Hnone.
    { rewrite <-Hsame. apply Hiff. apply list_elem_of_fmap.
      by exists (path row, date row). }
    destruct (filled_from _ _ row Hfill Hrow) as (r0 & Hr0 & (_ & Hp0 & _)).
    assert (r0 = r) as ->.
    { apply (NoDup_fmap_elem_inj path data r0 r Hnd Hr0 Hr). congruence. }
    rewrite Hp0, (scanned_date _ _ _ _ r Hsc Hr), Hdt in Hnone. discriminate.
Qed.

Lemma C5_writes_only_missing_witness :
  ∃ fs' calls, on_confirm pics january_filled = Ok (fs', calls)
    ∧ (∀ pre row post, january_filled = pre ++ row :: post →
         ∃ fs1 calls1, on_confirm pics pre = Ok (fs1, calls1)
           ∧ (path row ∈ calls.*1 ↔ get_exif_datetime fs1 (path row) = Ok None))
    ∧ (∀ r dt, r ∈ pics_data → date r = Some dt → path r ∉ calls.*1).
Proof.
  apply (C5_writes_only_missing pics "/p" pics_listing pics_data january_filled).
  - split; [by apply (bool_decide_unpack _)|repeat constructor].
  - vm_compute. reflexivity.
  - vm_compute. reflexivity.
Defined.




(** C8. Reading the capture date never raises: when the file cannot be
    opened, its metadata cannot be decoded, the field is absent or its
    text is no date, the result is an absent date; the scan makes a row
    for every picture of the folder. *)
Theorem C8_read_failure_is_absent (fs : gmap string image) (folder : string)
    (listing : list string) :
  (∀ p, ∃ v, get_exif_datetime fs p = Ok v
             ∧ ∀ e, get_exif_datetime_body fs p = Raise e → v = None)
  ∧ (∀ p, fs !! p = None → get_exif_datetime fs p = Ok None)
  ∧ (∀ p img e, fs !! p = Some img → getexif img = Raise e →
       get_exif_datetime fs p = Ok None)
  ∧ (∀ p img tags, fs !! p = Some img → getexif img = Ok (Some tags) →
       tags !! Tag.DateTimeOriginal = None → get_exif_datetime fs p = Ok None)
  ∧ (∀ p img tags v e, fs !! p = Some img → getexif img = Ok (Some tags) →
       tags !! Tag.DateTimeOriginal = Some v → strptime_value v = Raise e →
       get_exif_datetime fs p = Ok None)
  ∧ ∃ data, scan fs folder listing = Ok data
      ∧ file <$> data = jpg_files listing
      ∧ ∀ r e, r ∈ data → get_exif_datetime_body fs (path r) = Raise e →
          date r = None.
Proof.
  split_and!.
  - intros p. apply get_exif_datetime_total.
  - intros p Hp. unfold get_exif_datetime, get_exif_datetime_body, image_open.
    by rewrite Hp.
  - intros p img e Hp He.
    unfold get_exif_datetime, get_exif_datetime_body, image_open.
    rewrite Hp. simpl. by rewrite He.
  - intros p img tags Hp He Ht.
    unfold get_exif_datetime, get_exif_datetime_body, image_open.
    rewrite Hp. simpl. rewrite He. simpl. by rewrite find_date_lookup, Ht.
  - intros p img tags v e Hp He Ht Hv.
    unfold get_exif_datetime, get_exif_datetime_body, image_open.
    rewrite Hp. simpl. rewrite He. simpl. rewrite find_date_lookup, Ht, Hv. done.
  - destruct (scan_total fs folder listing) as (data & Hscan & Hsc).
    exists data. split_and!; [done|by eapply scanned_files|].
    intros r e Hr He. pose proof (scanned_date _ _ _ _ r Hsc Hr) as Hget.
    destruct (get_exif_datetime_total fs (path r)) as (v & Hv & Hnone).
    rewrite (Hnone e He) in Hv. congruence.
Qed.

(** C9, at a folder where it fails.  [A-2024-01.jpg] carries the date
    2024-01-15 10:00:00 in its metadata, the scan reads it, the filler
    leaves it, and the preview marks the row as filled. *)
Theorem C9_original_date_marked_filled :
  scan pics "/p" pics_listing = Ok pics_data
  ∧ pics_data !! 0%nat
    = Some (mkRow "A-2024-01.jpg" "/p/A-2024-01.jpg" (Some "2024-01")
              (Some dt_2024_01_15))
  ∧ filled pics_data = Ok january_filled
  ∧ preview january_filled
    = Ok [ (FlagFilled, "A-2024-01.jpg", "2024-01-15 10:00:00");
           (FlagFilled, "B-2024-01.jpg", "2024-01-01 00:00:00") ].
Proof.
  split_and!; [apply pics_scan|done|apply pics_filled|].
  vm_compute. reflexivity.
Qed.

(** C10. Every row of the filler's output has a date; hence the preview
    formats every row, and the writer hands a date to every call. *)
Theorem C10_output_rows_dated (df out : list Row) :
  filled df = Ok out →
  Forall (λ r, is_Some (date r)) out
  ∧ (∃ lines, preview out = Ok lines ∧ length lines = length out)
  ∧ ∀ fs fs' calls, on_confirm fs out = Ok (fs', calls) →
      Forall (λ c, is_Some c.2) calls.
Proof.
  intros Hf.
  assert (Forall (λ r, is_Some (date r)) out) as Hd.
  { apply Forall_forall. intros r' Hr'.
    destruct (filled_elem df out r' Hf Hr') as (k & o & Hk & Ho & Hin).
    eapply fill_month_dated in Ho.
    - rewrite Forall_forall in Ho. by apply Ho.
    - apply Forall_forall. intros r [Hr _]%list_elem_of_filter.
      rewrite Hr. by eexists. }
  split_and!; [done| |].
  - clear Hf. induction Hd as [|r rows [dt Hdt] _ IH]; simpl.
    + by exists [].
    + destruct IH as (lines & -> & Hlen). unfold preview_line. rewrite Hdt. simpl.
      eexists. split; [done|]. simpl. by rewrite Hlen.
  - intros fs fs' calls Hconf. apply Forall_forall. intros c Hc.
    destruct (on_confirm_frame _ _ _ _ Hconf) as [_ Hcalls].
    destruct (Hcalls c Hc) as (row & Hrow & ->). simpl.
    rewrite Forall_forall in Hd. by apply Hd.
Qed.

Lemma C10_output_rows_dated_witness :
  Forall (λ r, is_Some (date r)) january_filled
  ∧ (∃ lines, preview january_filled = Ok lines
              ∧ length lines = length january_filled)
  ∧ ∀ fs fs' calls, on_confirm fs january_filled = Ok (fs', calls) →
      Forall (λ c, is_Some c.2) calls.
Proof.
  apply (C10_output_rows_dated january january_filled).
  vm_compute. reflexivity.
Defined.

(** * Further properties of the code *)

(** ** [extract_ym] *)

Lemma is_digit_val (c : ascii) : Char.is_digit c = true → 0 <= Char.digit_val c <= 9.
Proof.
  unfold Char.is_digit, Char.digit_val. rewrite andb_true_iff, !Z.leb_le. lia.
Qed.

Lemma digit_not_hyphen (c : ascii) : Char.is_digit c = true → Char.eqb c hyphen = false.
Proof.
  intros Hd. unfold Char.eqb. destruct (Ascii.eqb_spec c hyphen) as [->|]; [|done].
  discriminate Hd.
Qed.

Lemma split_digits (s : string) : all_digits s = true → split hyphen s = [s].
Proof.
  induction s as [|c s IH]; [done|]. simpl. intros [Hc Hs]%andb_true_iff.
  by rewrite digit_not_hyphen, IH.
Qed.

Lemma split_digits_hyphen (a b : string) :
  all_digits a = true → split hyphen (a +:+ String hyphen b) = a :: split hyphen b.
Proof.
  induction a as [|c a IH]; [done|]. cbn [all_digits]. intros [Hc Ha]%andb_true_iff.
  change (String c a +:+ String hyphen b) with (String c (a +:+ String hyphen b)).
  cbn [split]. by rewrite digit_not_hyphen, IH.
Qed.

(** What the pattern matches at the head of a text: four digits, a hyphen,
    two digits, and the text goes on behind them. *)
Lemma match_ym_shape (s k : string) :
  match_ym s = Some k →
  ∃ yy mm post, k = yy +:+ String hyphen mm ∧ s = k +:+ post
    ∧ String.length yy = 4%nat ∧ String.length mm = 2%nat
    ∧ all_digits yy = true ∧ all_digits mm = true.
Proof.
  unfold match_ym.
  destruct s as [|a [|b [|c [|d [|h [|e [|f post]]]]]]]; try done.
  case_match eqn:Hc; [|done]. intros [= <-].
  do 6 (apply andb_true_iff in Hc as [Hc ?]).
  assert (h = hyphen) as -> by by apply Ascii.eqb_eq.
  exists (String a (String b (String c (String d ""))))%string,
         (String e (String f ""))%string, post.
  split_and!; try done; simpl;
    repeat match goal with
    | H : Char.is_digit _ = true |- _ => rewrite H; clear H
    end; done.
Qed.

Lemma append_nil_l (s : string) : ("" +:+ s)%string = s.
Proof. reflexivity. Qed.

Lemma append_cons (c : ascii) (a b : string) :
  (String c a +:+ b)%string = String c (a +:+ b).
Proof. reflexivity. Qed.

(** The key is the leftmost place of the file name where the pattern
    matches. *)
Lemma extract_ym_Some (fname k : string) :
  extract_ym fname = Some k →
  ∃ pre rest, fname = pre +:+ rest ∧ match_ym rest = Some k
    ∧ ∀ pre' rest', fname = pre' +:+ rest' →
        (String.length pre' < String.length pre)%nat → match_ym rest' = None.
Proof.
  induction fname as [|c fname IH]; [done|].
  cbn [extract_ym]. destruct (match_ym (String c fname)) as [k'|] eqn:Hm.
  - intros [= ->]. exists ""%string, (String c fname). split_and!; [done..|].
    intros pre' rest' _ Hlen. simpl in Hlen. lia.
  - intros (pre & rest & -> & Hrest & Hleft)%IH.
    exists (String c pre), rest. split_and!; [done..|].
    intros [|c' pre'] rest' Heq Hlen.
    + rewrite append_nil_l in Heq. by subst rest'.
    + rewrite append_cons in Heq. injection Heq as -> Heq.
      apply (Hleft pre' rest' Heq). simpl in Hlen. lia.
Qed.

Lemma extract_ym_None (fname : string) :
  extract_ym fname = None →
  ∀ pre rest, fname = pre +:+ rest → match_ym rest = None.
Proof.
  induction fname as [|c fname IH]; cbn [extract_ym].
  - intros _ [|??] rest Heq; [|done]. rewrite append_nil_l in Heq. by subst rest.
  - destruct (match_ym (String c fname)) as [k'|] eqn:Hm; [done|].
    intros Hnone [|c' pre] rest Heq.
    + rewrite append_nil_l in Heq. by subst rest.
    + rewrite append_cons in Heq. injection Heq as -> Heq.
      by apply (IH Hnone pre rest).
Qed.

Lemma digits_val_4 (s : string) :
  String.length s = 4%nat → all_digits s = true → 0 <= digits_val 0 s <= 9999.
Proof.
  destruct s as [|a [|b [|c [|d [|??]]]]]; try done. intros _. simpl.
  intros Hd. do 4 (apply andb_true_iff in Hd as [?%is_digit_val Hd]). lia.
Qed.

Lemma digits_val_2 (s : string) :
  String.length s = 2%nat → all_digits s = true → 0 <= digits_val 0 s <= 99.
Proof.
  destruct s as [|a [|b [|??]]]; try done. intros _. simpl.
  intros Hd. do 2 (apply andb_true_iff in Hd as [?%is_digit_val Hd]). lia.
Qed.

(** A text of the pattern's shape parses into its two numbers. *)
Lemma parse_ym_shape (yy mm : string) :
  String.length yy = 4%nat → String.length mm = 2%nat →
  all_digits yy = true → all_digits mm = true →
  parse_ym (yy +:+ String hyphen mm) = Ok (digits_val 0 yy, digits_val 0 mm).
Proof.
  intros Hly Hlm Hy Hm. unfold parse_ym.
  rewrite split_digits_hyphen, split_digits by done.
  unfold py_int. rewrite Hy, Hm.
  destruct yy; [done|]. destruct mm; [done|]. done.
Qed.

(** X1. [extract_ym] returns the leftmost part of the file name that is
    four digits, a hyphen and two digits; it returns nothing exactly when
    no place of the name matches. *)
Theorem X1_extract_ym_leftmost (fname : string) :
  (∀ k, extract_ym fname = Some k →
     ∃ pre post yy mm,
       fname = pre +:+ k +:+ post ∧ k = yy +:+ String hyphen mm
       ∧ String.length yy = 4%nat ∧ String.length mm = 2%nat
       ∧ all_digits yy = true ∧ all_digits mm = true
       ∧ ∀ pre' rest', fname = pre' +:+ rest' →
           (String.length pre' < String.length pre)%nat → match_ym rest' = None)
  ∧ (extract_ym fname = None →
       ∀ pre rest, fname = pre +:+ rest → match_ym rest = None).
Proof.
  split; [|apply extract_ym_None].
  intros k (pre & rest & -> & Hm & Hleft)%extract_ym_Some.
  destruct (match_ym_shape rest k Hm)
    as (yy & mm & post & Hk & -> & Hly & Hlm & Hy & Hmm).
  exists pre, post, yy, mm. by split_and!.
Qed.

(** X2. A key found by [extract_ym] always parses into a year between 0
    and 9999 and a month between 0 and 99; building the first day of the
    month fails exactly for year 0, month 0 and months above 12. *)
Theorem X2_scanner_key_parses (fname k : string) :
  extract_ym fname = Some k →
  ∃ y m, parse_ym k = Ok (y, m) ∧ 0 <= y <= 9999 ∧ 0 <= m <= 99
    ∧ (new_datetime y m 1 0 0 0 = Raise ValueError ↔ y = 0 ∨ m = 0 ∨ 12 < m)
    ∧ (new_datetime y m 1 0 0 0 = Ok (mkDatetime y m 1 0 0 0)
       ↔ 1 <= y ∧ 1 <= m <= 12).
Proof.
  intros (pre & rest & -> & Hm & _)%extract_ym_Some.
  destruct (match_ym_shape rest k Hm)
    as (yy & mm & post & -> & _ & Hly & Hlm & Hy & Hmm).
  exists (digits_val 0 yy), (digits_val 0 mm).
  pose proof (digits_val_4 yy Hly Hy). pose proof (digits_val_2 mm Hlm Hmm).
  split_and!; [by apply parse_ym_shape|lia..| |].
  - split.
    + intros Hraise. destruct (decide (valid_month (digits_val 0 yy) (digits_val 0 mm)))
        as [Hv|Hv].
      * rewrite new_datetime_month_start in Hraise by done. discriminate.
      * unfold valid_month in Hv. lia.
    + intros Hbad. apply new_datetime_month_start_raise. unfold valid_month. lia.
  - split.
    + intros [Hv _]%new_datetime_month_start_inv. unfold valid_month in Hv. lia.
    + intros Hgood. apply new_datetime_month_start. unfold valid_month. lia.
Qed.

Lemma X2_scanner_key_parses_witness :
  ∃ y m, parse_ym "2024-05" = Ok (y, m) ∧ 0 <= y <= 9999 ∧ 0 <= m <= 99
    ∧ (new_datetime y m 1 0 0 0 = Raise ValueError ↔ y = 0 ∨ m = 0 ∨ 12 < m)
    ∧ (new_datetime y m 1 0 0 0 = Ok (mkDatetime y m 1 0 0 0)
       ↔ 1 <= y ∧ 1 <= m <= 12).
Proof.
  apply (X2_scanner_key_parses "IMG_2024-05_001.jpg" "2024-05").
  vm_compute. reflexivity.
Defined.

(** ** The rows of the output *)

Lemma filter_ext_elem {A} (P Q : A → Prop)
    `{!∀ x, Decision (P x), !∀ x, Decision (Q x)} (l : list A) :
  (∀ x, x ∈ l → (P x ↔ Q x)) → filter P l = filter Q l.
Proof.
  induction l as [|a l IH]; intros Hiff; [done|].
  assert (filter P l = filter Q l) as IH'.
  { apply IH. intros x Hx. apply Hiff. by right. }
  assert (P a ↔ Q a) as Ha by (apply Hiff; by left).
  destruct (decide (P a)) as [HP|HP].
  - rewrite !filter_cons_True by tauto. by rewrite IH'.
  - rewrite !filter_cons_False by tauto. done.
Qed.

Lemma filter_keyed_in_nil (df : list Row) : filter (keyed_in []) df = [].
Proof.
  induction df as [|r df IH]; [done|]. rewrite filter_cons_False; [done|].
  unfold keyed_in. destruct (ym r); [apply not_elem_of_nil|tauto].
Qed.

Lemma filter_key_split (df : list Row) (k : string) (ks : list string) :
  k ∉ ks →
  filter (has_ym k) df ++ filter (keyed_in ks) df ≡ₚ filter (keyed_in (k :: ks)) df.
Proof.
  intros Hk. induction df as [|r df IH]; [done|].
  destruct (decide (has_ym k r)) as [Hr|Hr].
  - rewrite (filter_cons_True (has_ym k)) by done.
    rewrite (filter_cons_False (keyed_in ks)).
    2:{ unfold keyed_in. by rewrite Hr. }
    rewrite (filter_cons_True (keyed_in (k :: ks))).
    2:{ unfold keyed_in. rewrite Hr. by left. }
    simpl. by rewrite IH.
  - rewrite (filter_cons_False (has_ym k)) by done.
    destruct (decide (keyed_in ks r)) as [Hin|Hin].
    + rewrite (filter_cons_True (keyed_in ks)) by done.
      rewrite (filter_cons_True (keyed_in (k :: ks))).
      2:{ unfold keyed_in in *. destruct (ym r); [by right|done]. }
      by rewrite <-Permutation_middle, IH.
    + rewrite (filter_cons_False (keyed_in ks)) by done.
      rewrite (filter_cons_False (keyed_in (k :: ks))); [done|].
      unfold keyed_in, has_ym in *. destruct (ym r) as [k'|]; [|done].
      intros [->|?]%elem_of_cons; [by destruct Hr|done].
Qed.

(** The groups of distinct keys are, together, the rows with such a key. *)
Lemma groups_partition (df : list Row) (ks : list string) :
  NoDup ks →
  mjoin ((λ k, filter (has_ym k) df) <$> ks) ≡ₚ filter (keyed_in ks) df.
Proof.
  induction 1 as [|k ks Hk _ IH]; csimpl.
  - by rewrite filter_keyed_in_nil.
  - by rewrite IH, filter_key_split.
Qed.

Lemma filter_keyed_in_group_keys (df : list Row) :
  filter (keyed_in (group_keys df)) df = filter keyed df.
Proof.
  apply filter_ext_elem. intros r Hr. unfold keyed_in, keyed.
  destruct (ym r) as [k|] eqn:Hk.
  - split; [by eexists|]. intros _. apply elem_of_group_keys. eauto.
  - split; [done|]. by intros [? ?].
Qed.

(** The output, up to the order of the rows: the rows that have a key,
    each filled at most. *)
Lemma filled_rows (df out : list Row) :
  filled df = Ok out →
  ∃ l, l ≡ₚ filter keyed df ∧ Forall2 fills l out.
Proof.
  intros (outs & Hf & ->)%filled_Ok.
  exists (mjoin ((λ k, sort_values (filter (has_ym k) df)) <$> group_keys df)).
  split.
  - rewrite <-filter_keyed_in_group_keys, <-groups_partition
      by apply NoDup_group_keys.
    clear Hf. induction (group_keys df) as [|k ks IH]; csimpl; [done|].
    by rewrite sort_values_perm, IH.
  - induction Hf as [|k o ks outs Ho _ IH]; csimpl; [constructor|].
    apply Forall2_app; [by apply fill_month_fills|done].
Qed.

Lemma fills_files (l l' : list Row) : Forall2 fills l l' → file <$> l' = file <$> l.
Proof. induction 1 as [|r r' l l' (Hf & _) _ IH]; [done|]. csimpl. by rewrite Hf, IH. Qed.

(** X3. The filler returns if and only if every key that is present
    parses into a month of the calendar. *)
Theorem X3_filled_returns_iff (df : list Row) :
  (∃ out, filled df = Ok out) ↔
  (∀ r k, r ∈ df → ym r = Some k →
     ∃ y m, parse_ym k = Ok (y, m) ∧ valid_month y m).
Proof.
  split.
  - intros [out Hf] r k Hr Hk.
    assert (k ∈ group_keys df) as Hkeys by (apply elem_of_group_keys; eauto).
    destruct (filled_group df out k Hf Hkeys) as (o & Ho & _).
    apply fill_month_inv in Ho as (first & rest & Hs & Ho).
    assert (ym first = Some k) as Hfirst.
    { eapply group_first_key; [|done]. apply Forall_forall.
      by intros ? [? _]%list_elem_of_filter. }
    rewrite Hfirst in Ho. destruct Ho as (y & m & Hp & Hv & _). eauto.
  - intros Hall.
    assert (∃ outs, Forall2 (λ k o, fill_month (filter (has_ym k) df) = Ok o)
                      (group_keys df) outs) as [outs Houts].
    { apply Forall_exists_Forall2_l, Forall_forall. intros k Hk.
      pose proof Hk as (r & Hr & Hym)%elem_of_group_keys.
      destruct (Hall r k Hr Hym) as (y & m & Hp & Hv).
      eexists. eapply fill_month_group; [by apply group_nonempty| |done..].
      apply Forall_forall. by intros ? [? _]%list_elem_of_filter. }
    exists (mjoin outs). apply filled_Ok. eauto.
Qed.

(** X4. The rows of the filler's output are, up to their order, the rows
    of the input that have a key: the same file names, the same paths,
    and as many rows. *)
Theorem X4_output_is_keyed_rows (df out : list Row) :
  filled df = Ok out →
  file <$> out ≡ₚ file <$> filter keyed df
  ∧ path <$> out ≡ₚ path <$> filter keyed df
  ∧ length out = length (filter keyed df).
Proof.
  intros (l & Hl & Hfills)%filled_rows. split_and!.
  - by rewrite (fills_files _ _ Hfills), Hl.
  - by rewrite (fills_paths _ _ Hfills), Hl.
  - by rewrite <-(Forall2_length _ _ _ Hfills), Hl.
Qed.

Lemma X4_output_is_keyed_rows_witness :
  file <$> january_filled ≡ₚ file <$> filter keyed pics_data
  ∧ path <$> january_filled ≡ₚ path <$> filter keyed pics_data
  ∧ length january_filled = length (filter keyed pics_data).
Proof.
  apply (X4_output_is_keyed_rows pics_data january_filled).
  vm_compute. reflexivity.
Defined.

(** ** The step sequence *)

Lemma slot_time_eq_iff (y m : Z) (i1 i2 : nat) :
  slot_time y m i1 = slot_time y m i2 ↔ (i1 mod 48 = i2 mod 48)%nat.
Proof.
  unfold slot_time. split.
  - intros [= Hh Hm]. apply Nat2Z.inj. rewrite !Nat2Z.inj_mod.
    change (Z.of_nat 48) with 48. Z.div_mod_to_equations. lia.
  - intros H. apply (f_equal Z.of_nat) in H. rewrite !Nat2Z.inj_mod in H.
    change (Z.of_nat 48) with 48 in H.
    f_equal; Z.div_mod_to_equations; lia.
Qed.

Lemma slot_time_flag (y m : Z) (i : nat) : flag_of (slot_time y m i) = FlagFilled.
Proof.
  unfold flag_of, slot_time. simpl.
  assert ((Z.of_nat i * 30) mod 60 = 0 ∨ (Z.of_nat i * 30) mod 60 = 30) as [->| ->]
    by (Z.div_mod_to_equations; lia); done.
Qed.



(** X6. The result of [fill_month] does not depend on the order in which
    the rows of the group arrive, as long as their file names are
    distinct. *)
Theorem X6_fill_month_order_independent (group group' : list Row) :
  NoDup (file <$> group) → group' ≡ₚ group →
  sort_values group' = sort_values group ∧ fill_month group' = fill_month group.
Proof.
  intros Hnd Hperm.
  assert (sort_values group' = sort_values group) as Hs.
  { apply sort_values_unique; [done|apply sort_values_sorted|].
    by rewrite sort_values_perm. }
  split; [done|]. by rewrite !fill_month_unfold, Hs.
Qed.

Lemma X6_fill_month_order_independent_witness :
  sort_values (reverse may_group) = sort_values may_group
  ∧ fill_month (reverse may_group) = fill_month may_group.
Proof.
  apply (X6_fill_month_order_independent may_group (reverse may_group)).
  - by apply (bool_decide_unpack _).
  - apply reverse_Permutation.
Defined.

(** X7. Every record of the input that has a key and no date is in the
    output with a date on the first of a month, at second 0 and minute 0
    or 30, and the preview shows it with the marker for filled dates. *)
Theorem X7_undated_rows_shown_filled (df out : list Row) (r : Row) :
  filled df = Ok out → r ∈ df → date r = None → keyed r →
  ∃ dt, set_date dt r ∈ out
    ∧ day dt = 1 ∧ second dt = 0 ∧ (minute dt = 0 ∨ minute dt = 30)
    ∧ 0 <= hour dt <= 23
    ∧ preview_line (set_date dt r) = Ok (FlagFilled, file r, preview_format dt).
Proof.
  intros Hf Hr Hd [k Hk].
  assert (k ∈ group_keys df) as Hkeys by (apply elem_of_group_keys; eauto).
  destruct (filled_group df out k Hf Hkeys) as (o & Ho & Hsub).
  apply fill_month_inv in Ho as (first & rest & Hs & Ho).
  assert (ym first = Some k) as Hfirst.
  { eapply group_first_key; [|done]. apply Forall_forall.
    by intros ? [? _]%list_elem_of_filter. }
  rewrite Hfirst in Ho. destruct Ho as (y & m & _ & Hv & ->).
  assert (r ∈ sort_values (filter (has_ym k) df)) as [j Hj]%list_elem_of_lookup.
  { apply sort_values_elem, list_elem_of_filter. by split. }
  pose proof (fill_rows_lookup y m 0 _ j r Hj) as Hout.
  rewrite Hd in Hout. simpl in Hout.
  set (i := length (filter missing (take j (sort_values (filter (has_ym k) df))))) in *.
  exists (slot_time y m i). split_and!.
  - apply Hsub. by eapply list_elem_of_lookup_2.
  - done.
  - done.
  - unfold slot_time. simpl. Z.div_mod_to_equations. lia.
  - unfold slot_time. simpl. Z.div_mod_to_equations. lia.
  - unfold slot_time. simpl. Z.div_mod_to_equations. lia.
  - unfold preview_line. simpl. by rewrite slot_time_flag.
Qed.

Lemma X7_undated_rows_shown_filled_witness :
  ∃ dt, set_date dt (mkRow "B-2024-01.jpg" "/p/B-2024-01.jpg" (Some "2024-01") None)
          ∈ january_filled
    ∧ day dt = 1 ∧ second dt = 0 ∧ (minute dt = 0 ∨ minute dt = 30)
    ∧ 0 <= hour dt <= 23
    ∧ preview_line
        (set_date dt (mkRow "B-2024-01.jpg" "/p/B-2024-01.jpg" (Some "2024-01") None))
      = Ok (FlagFilled, "B-2024-01.jpg", preview_format dt).
Proof.
  apply (X7_undated_rows_shown_filled pics_data january_filled
           (mkRow "B-2024-01.jpg" "/p/B-2024-01.jpg" (Some "2024-01") None)).
  - vm_compute. reflexivity.
  - by apply (bool_decide_unpack _).
  - reflexivity.
  - by eexists.
Defined.

(** ** The scan *)

Lemma jpg_files_elem (listing : list string) (f : string) :
  f ∈ jpg_files listing ↔ f ∈ listing ∧ is_jpg f = true.
Proof.
  unfold jpg_files. rewrite merge_sort_Permutation, list_elem_of_filter. tauto.
Qed.

(** X8. The scan makes one row for each name of the listing that ends in
    [.jpg] (in any letter case) and for no other name; the rows are in the
    order of the file names; each carries the joined path, the key found
    in the name and the date read from the file. *)
Theorem X8_scan_rows (fs : gmap string image) (folder : string)
    (listing : list string) :
  ∃ data, scan fs folder listing = Ok data
    ∧ Sorted str_le (file <$> data)
    ∧ file <$> data ≡ₚ filter (λ f, is_jpg f = true) listing
    ∧ (∀ f, f ∈ file <$> data ↔ f ∈ listing ∧ is_jpg f = true)
    ∧ Forall (λ r, path r = path_join folder (file r)
                   ∧ ym r = extract_ym (file r)
                   ∧ get_exif_datetime fs (path r) = Ok (date r)) data.
Proof.
  destruct (scan_total fs folder listing) as (data & Hscan & Hsc).
  exists data. rewrite (scanned_files _ _ _ _ Hsc). split_and!; [done| | | |].
  - apply Sorted_merge_sort, _.
  - apply merge_sort_Permutation.
  - apply jpg_files_elem.
  - clear Hscan. induction Hsc as [|f r files data (Hf & Hp & Hy & Hg) _ IH];
      constructor; [|done]. by rewrite Hf.
Qed.

(** ** The extension test *)

Lemma length_append (a b : string) :
  String.length (a +:+ b) = (String.length a + String.length b)%nat.
Proof. induction a as [|c a IH]; [done|]. rewrite append_cons. simpl. by rewrite IH. Qed.

Lemma length_lower (s : string) : String.length (lower s) = String.length s.
Proof. induction s as [|c s IH]; simpl; by rewrite ?IH. Qed.

Lemma lower_append (a b : string) : lower (a +:+ b) = lower a +:+ lower b.
Proof.
  induction a as [|c a IH]; [done|]. rewrite append_cons. simpl.
  by rewrite IH, append_cons.
Qed.

Lemma substring_whole (b : string) : String.substring 0 (String.length b) b = b.
Proof. induction b as [|c b IH]; simpl; by rewrite ?IH. Qed.

Lemma substring_append_r (a b : string) :
  String.substring (String.length a) (String.length b) (a +:+ b) = b.
Proof.
  induction a as [|c a IH]; [apply substring_whole|]. by rewrite append_cons.
Qed.

Lemma split_suffix (s : string) (k : nat) :
  (k ≤ String.length s)%nat →
  ∃ a b, s = a +:+ b ∧ String.length b = k.
Proof.
  induction s as [|c s IH]; intros Hk.
  - exists ""%string, ""%string. simpl in *. split; [done|lia].
  - destruct (decide (k = S (String.length s))) as [->|Hne].
    + by exists ""%string, (String c s).
    + destruct IH as (a & b & -> & Hb); [simpl in Hk; lia|].
      exists (String c a), b. by rewrite append_cons.
Qed.

(** [s.endswith(suffix)]: the text is some text followed by the suffix. *)
Lemma endswith_iff (s suffix : string) :
  endswith s suffix = true ↔ ∃ pre, s = pre +:+ suffix.
Proof.
  unfold endswith. rewrite andb_true_iff, Nat.leb_le, String.eqb_eq. split.
  - intros [Hk Hsub].
    destruct (split_suffix s (String.length suffix) Hk) as (a & b & -> & Hb).
    exists a. rewrite length_append, Hb in Hsub.
    replace (String.length a + String.length suffix - String.length suffix)%nat
      with (String.length a) in Hsub by lia.
    rewrite <-Hb, substring_append_r in Hsub. by subst b.
  - intros [pre ->]. rewrite length_append. split; [lia|].
    replace (String.length pre + String.length suffix - String.length suffix)%nat
      with (String.length pre) by lia.
    apply substring_append_r.
Qed.

Lemma lower_char_inv (c : ascii) :
  (lower_char c = "."%char ↔ c = "."%char)
  ∧ (lower_char c = "j"%char ↔ c = "j"%char ∨ c = "J"%char)
  ∧ (lower_char c = "p"%char ↔ c = "p"%char ∨ c = "P"%char)
  ∧ (lower_char c = "g"%char ↔ c = "g"%char ∨ c = "G"%char).
Proof.
  destruct c as [[] [] [] [] [] [] [] []]; vm_compute; intuition congruence.
Qed.

Lemma append_inv_suffix (a b c d : string) :
  a +:+ b = c +:+ d → String.length b = String.length d → a = c ∧ b = d.
Proof.
  revert c. induction a as [|x a IH]; intros [|y c] Heq Hlen.
  - by rewrite !append_nil_l in Heq.
  - apply (f_equal String.length) in Heq.
    rewrite append_nil_l, length_append in Heq. simpl in Heq. lia.
  - apply (f_equal String.length) in Heq.
    rewrite append_nil_l, length_append in Heq. simpl in Heq. lia.
  - rewrite !append_cons in Heq. injection Heq as -> Heq.
    destruct (IH c Heq Hlen) as [-> ->]. done.
Qed.

(** X9. A file is taken by the scan exactly when its name is some text
    followed by a dot and the letters j, p, g, each in either case. *)
Theorem X9_is_jpg_iff (f : string) :
  is_jpg f = true ↔
  ∃ stem c1 c2 c3,
    f = stem +:+ String "." (String c1 (String c2 (String c3 "")))
    ∧ (c1 = "j"%char ∨ c1 = "J"%char)
    ∧ (c2 = "p"%char ∨ c2 = "P"%char)
    ∧ (c3 = "g"%char ∨ c3 = "G"%char).
Proof.
  unfold is_jpg. rewrite endswith_iff. split.
  - intros [pre Hpre].
    assert (4 ≤ String.length f)%nat as Hlen.
    { rewrite <-length_lower, Hpre, length_append. simpl. lia. }
    destruct (split_suffix f 4 Hlen) as (stem & ext & -> & Hext).
    rewrite lower_append in Hpre.
    apply append_inv_suffix in Hpre as [_ Hlow]; [|by rewrite length_lower].
    destruct ext as [|c0 [|c1 [|c2 [|c3 [|??]]]]]; try done.
    simpl in Hlow. injection Hlow as H0 H1 H2 H3.
    apply lower_char_inv in H0 as ->. exists stem, c1, c2, c3.
    split_and!; [done|by apply lower_char_inv..].
  - intros (stem & c1 & c2 & c3 & -> & H1 & H2 & H3).
    exists (lower stem). rewrite lower_append. f_equal. simpl.
    apply lower_char_inv in H1, H2, H3. by rewrite H1, H2, H3.
Qed.

(** ** Reading and writing files *)

Lemma new_datetime_valid y mo d h mi s (dt : datetime) :
  new_datetime y mo d h mi s = Ok dt → valid_datetime dt = true.
Proof.
  unfold new_datetime. case_match eqn:Hv; [|done]. by intros [= <-].
Qed.

Lemma strptime_valid (s : string) (dt : datetime) :
  strptime s = Ok dt → valid_datetime dt = true.
Proof.
  unfold strptime. destruct (Strptime.fields s) as [[[[[[y mo] d] h] mi] sec]|]; [|done].
  apply new_datetime_valid.
Qed.

(** X10. [get_exif_datetime] reports a date exactly when the file opens,
    its metadata decodes to a dictionary whose DateTimeOriginal entry is a
    text, and that text parses in the format [%Y:%m:%d %H:%M:%S]; the date
    reported is the parsed one, a valid date.  No other tag is used. *)
Theorem X10_get_exif_datetime_some (fs : gmap string image) (p : string)
    (dt : datetime) :
  get_exif_datetime fs p = Ok (Some dt) ↔
  ∃ img tags s, fs !! p = Some img ∧ getexif img = Ok (Some tags)
    ∧ tags !! Tag.DateTimeOriginal = Some (VStr s)
    ∧ strptime s = Ok dt ∧ valid_datetime dt = true.
Proof.
  unfold get_exif_datetime, get_exif_datetime_body, image_open. split.
  - destruct (fs !! p) as [img|] eqn:Hp; [|done]. simpl.
    destruct (getexif img) as [[tags|]|] eqn:Hg; simpl; [|done..].
    rewrite find_date_lookup.
    destruct (tags !! Tag.DateTimeOriginal) as [[s|]|] eqn:Ht; simpl; [|done..].
    destruct (strptime s) as [dt'|] eqn:Hs; simpl; [|done].
    intros [= ->]. exists img, tags, s. split_and!; try done.
    by eapply strptime_valid.
  - intros (img & tags & s & -> & Hg & Ht & Hs & _). simpl. rewrite Hg. simpl.
    rewrite find_date_lookup, Ht. simpl. by rewrite Hs.
Qed.

(** The loop changes the store only at the paths it calls the writer for. *)
Lemma on_confirm_unwritten (fs fs' : gmap string image) (rows : list Row) calls :
  on_confirm fs rows = Ok (fs', calls) →
  ∀ p, p ∉ calls.*1 → fs' !! p = fs !! p.
Proof.
  revert fs fs' calls. induction rows as [|row rows IH]; intros fs fs' calls H p Hp.
  { simpl in H. by injection H as <- <-. }
  simpl in H. destruct (get_exif_datetime_total fs (path row)) as (v & Hv & _).
  rewrite Hv in H. simpl in H. destruct v as [dt|].
  - by apply (IH _ _ _ H).
  - destruct (on_confirm _ rows) as [[fs1 calls1]|] eqn:Hrec; [|done].
    simpl in H. injection H as <- <-.
    rewrite fmap_cons in Hp. apply not_elem_of_cons in Hp as [Hne Hp].
    rewrite (IH _ _ _ Hrec p Hp). by apply set_exif_datetime_other.
Qed.

(** A row of the output was either in the input with its date, or is an
    undated row of the input with a slot of a valid month. *)
Lemma filled_row_cases (df out : list Row) (row : Row) :
  filled df = Ok out → row ∈ out →
  (row ∈ df ∧ is_Some (date row))
  ∨ ∃ r0 y m i, r0 ∈ df ∧ date r0 = None ∧ valid_month y m
                ∧ row = set_date (slot_time y m i) r0
                ∧ ∃ k, ym r0 = Some k ∧ parse_ym k = Ok (y, m).
Proof.
  intros Hf Hrow.
  destruct (filled_elem df out row Hf Hrow) as (k & o & Hk & Ho & Hin).
  apply fill_month_inv in Ho as (first & rest & Hs & Ho).
  assert (ym first = Some k) as Hfirst.
  { eapply group_first_key; [|done]. apply Forall_forall.
    by intros ? [? _]%list_elem_of_filter. }
  rewrite Hfirst in Ho. destruct Ho as (y & m & Hparse & Hv & ->).
  apply list_elem_of_lookup in Hin as [j Hj].
  destruct (sort_values (filter (has_ym k) df) !! j) as [r0|] eqn:Hr0.
  2:{ apply lookup_ge_None in Hr0. apply lookup_lt_Some in Hj.
      rewrite length_fill_rows in Hj. lia. }
  rewrite (fill_rows_lookup y m 0 _ j r0 Hr0) in Hj. injection Hj as <-.
  assert (has_ym k r0 ∧ r0 ∈ df) as [Hk0 Hin0].
  { by apply list_elem_of_lookup_2, sort_values_elem, list_elem_of_filter in Hr0. }
  destruct (date r0) as [dt|] eqn:Hd; simpl.
  - left. split; [done|]. rewrite Hd. by eexists.
  - right. eexists r0, y, m, _. split_and!; [done..|]. by exists k.
Qed.

(** ** One run of [main], from the scan to the confirmed write *)

Section run.
Context (fs : gmap string image) (folder : string) (listing : list string).
Context (data out : list Row) (fs' : gmap string image)
  (calls : list (string * option datetime)).
Hypothesis Hlisting : listing_ok listing.
Hypothesis Hscan : scan fs folder listing = Ok data.
Hypothesis Hfilled : filled data = Ok out.
Hypothesis Hconfirm : on_confirm fs out = Ok (fs', calls).

Lemma run_scanned : Forall2 (scanned fs folder) (jpg_files listing) data.
Proof.
  destruct (scan_total fs folder listing) as (data' & Hscan' & Hsc).
  assert (data' = data) as -> by congruence. done.
Qed.

Lemma run_data_paths : NoDup (path <$> data).
Proof.
  eapply scanned_paths_NoDup; [|apply run_scanned]. by apply jpg_files_ok.
Qed.

Lemma run_out_paths : NoDup (path <$> out).
Proof. eapply filled_paths_NoDup; [apply run_data_paths|done]. Qed.

(** The row of the input behind a row of the output. *)
Lemma run_origin (row : Row) :
  row ∈ out →
  ∃ r, r ∈ data ∧ fills r row ∧ get_exif_datetime fs (path row) = Ok (date r).
Proof.
  intros Hrow. destruct (filled_from _ _ row Hfilled Hrow) as (r & Hr & Hfills).
  exists r. split_and!; [done..|].
  destruct Hfills as (_ & -> & _). by eapply scanned_date; [apply run_scanned|].
Qed.

(** The writer is called for a row exactly when the scan found no date. *)
Lemma run_called (row : Row) :
  row ∈ out →
  (path row ∈ calls.*1 ↔ get_exif_datetime fs (path row) = Ok None)
  ∧ ((path row, date row) ∈ calls ↔ get_exif_datetime fs (path row) = Ok None).
Proof.
  intros Hrow. destruct (list_elem_of_split _ _ Hrow) as (pre & post & Heq).
  pose proof run_out_paths as Hnd. pose proof Hconfirm as Hc. rewrite Heq in Hnd, Hc.
  destruct (on_confirm_middle _ _ _ _ _ _ Hnd Hc)
    as (fs1 & c1 & _ & Hsame & Hiff1 & Hiff2).
  by rewrite <-Hsame.
Qed.

Lemma run_calls (c : string * option datetime) :
  c ∈ calls →
  ∃ r dt, r ∈ data ∧ c = (path r, Some dt) ∧ date r = None ∧ keyed r
          ∧ set_date dt r ∈ out ∧ valid_datetime dt = true
          ∧ ∃ k m, ym r = Some k ∧ parse_ym k = Ok (year dt, m).
Proof.
  intros Hc. destruct (on_confirm_frame _ _ _ _ Hconfirm) as [_ Hcalls].
  destruct (Hcalls c Hc) as (row & Hrow & ->).
  destruct (run_called row Hrow) as [_ Hiff]. apply Hiff in Hc.
  destruct (run_origin row Hrow) as (r & Hr & Hfills & Hget).
  assert (date r = None) as Hd by congruence.
  destruct (filled_row_cases _ _ row Hfilled Hrow)
    as [[Hin [dt Hdt]]|(r0 & y & m & i & Hr0 & Hd0 & Hv & -> & k & Hk0 & Hp0)].
  - assert (row = r) as ->; [|congruence].
    apply (NoDup_fmap_elem_inj path data row r run_data_paths Hin Hr).
    by destruct Hfills as (_ & ? & _).
  - assert (r0 = r) as ->.
    { apply (NoDup_fmap_elem_inj path data r0 r run_data_paths Hr0 Hr).
      by destruct Hfills as (_ & ? & _). }
    exists r, (slot_time y m i). split_and!; try done.
    + unfold keyed. eapply filled_keyed in Hrow; [|done]. done.
    + by apply slot_time_valid.
    + by exists k, m.
Qed.

Lemma run_untouched (p : string) :
  (∀ r, r ∈ data → date r = None → keyed r → path r ≠ p) →
  fs' !! p = fs !! p.
Proof.
  intros Hp. apply (on_confirm_unwritten _ _ _ _ Hconfirm).
  intros (c & -> & Hc)%list_elem_of_fmap.
  destruct (run_calls c Hc) as (r & dt & Hr & -> & Hd & Hk & _).
  by apply (Hp r).
Qed.

End run.

(** X11. In a run of [main] the writer is called only for files of the
    folder whose name has a key and whose date was missing at the scan,
    each with the date the filler gave it; every other path of the store
    holds after the run what it held before. *)
Theorem X11_run_touches_only_undated (fs : gmap string image) (folder : string)
    (listing : list string) (data out : list Row) (fs' : gmap string image)
    (calls : list (string * option datetime)) :
  listing_ok listing →
  scan fs folder listing = Ok data → filled data = Ok out →
  on_confirm fs out = Ok (fs', calls) →
  (∀ c, c ∈ calls →
     ∃ r dt, r ∈ data ∧ c = (path r, Some dt) ∧ date r = None ∧ keyed r
             ∧ set_date dt r ∈ out)
  ∧ (∀ p, (∀ r, r ∈ data → date r = None → keyed r → path r ≠ p) →
       fs' !! p = fs !! p).
Proof.
  intros Hl Hs Hf Hc. split.
  - intros c Hin.
    destruct (run_calls fs folder listing data out fs' calls Hl Hs Hf Hc c Hin)
      as (r & dt & ? & ? & ? & ? & ? & _).
    by exists r, dt.
  - intros p. by eapply run_untouched.
Qed.

Lemma X11_run_touches_only_undated_witness :
  (∀ c, c ∈ pics_calls →
     ∃ r dt, r ∈ pics_data ∧ c = (path r, Some dt) ∧ date r = None ∧ keyed r
             ∧ set_date dt r ∈ january_filled)
  ∧ (∀ p, (∀ r, r ∈ pics_data → date r = None → keyed r → path r ≠ p) →
       pics_after !! p = pics !! p).
Proof.
  apply (X11_run_touches_only_undated pics "/p" pics_listing pics_data
           january_filled pics_after pics_calls).
  - split; [by apply (bool_decide_unpack _)|repeat constructor].
  - vm_compute. reflexivity.
  - vm_compute. reflexivity.
  - vm_compute. reflexivity.
Defined.

(** ** A second run *)

Lemma on_confirm_no_calls (fs : gmap string image) (rows : list Row) :
  (∀ row, row ∈ rows → ∃ dt, get_exif_datetime fs (path row) = Ok (Some dt)) →
  on_confirm fs rows = Ok (fs, []).
Proof.
  induction rows as [|row rows IH]; intros H; [done|]. simpl.
  destruct (H row) as [dt ->]; [by left|]. simpl.
  apply IH. intros r Hr. apply H. by right.
Qed.

(** The paths of the rows with a key depend on the names only. *)
Lemma scanned_keyed_paths fs folder (files : list string) (data : list Row) :
  Forall2 (scanned fs folder) files data →
  path <$> filter keyed data
  = path_join folder <$> filter (λ f, is_Some (extract_ym f)) files.
Proof.
  induction 1 as [|f r files data (Hf & Hp & Hy & _) _ IH]; [done|].
  destruct (decide (is_Some (extract_ym f))) as [Hk|Hk].
  - rewrite (filter_cons_True keyed) by (unfold keyed; by rewrite Hy).
    rewrite filter_cons_True by done. csimpl. by rewrite Hp, IH.
  - rewrite (filter_cons_False keyed) by (unfold keyed; by rewrite Hy).
    by rewrite filter_cons_False.
Qed.

Section second_run.
Context (fs : gmap string image) (folder : string) (listing : list string).
Context (data out : list Row) (fs' : gmap string image)
  (calls : list (string * option datetime)).
Hypothesis Hlisting : listing_ok listing.
Hypothesis Hscan : scan fs folder listing = Ok data.
Hypothesis Hfilled : filled data = Ok out.
Hypothesis Hconfirm : on_confirm fs out = Ok (fs', calls).
Hypothesis Hsaves : ∀ f, f ∈ jpg_files listing →
  ∃ img, fs !! path_join folder f = Some img ∧ saves img = true.
Hypothesis Hyears : ∀ r k y m,
  r ∈ data → ym r = Some k → parse_ym k = Ok (y, m) → 1000 <= y.

Lemma out_row_saves (row : Row) :
  row ∈ out → ∃ img, fs !! path row = Some img ∧ saves img = true.
Proof.
  intros Hrow.
  destruct (run_origin fs folder listing data out Hscan Hfilled row Hrow)
    as (r & Hr & (_ & Hp & _) & _).
  pose proof (run_scanned fs folder listing data Hscan) as Hsc.
  apply list_elem_of_lookup in Hr as [i Hi].
  destruct (Forall2_lookup_r _ _ _ _ _ Hsc Hi) as (f & Hf & (_ & Hpath & _)).
  rewrite Hp, Hpath. apply Hsaves. by eapply list_elem_of_lookup_2.
Qed.

(** After the run every file of an output row holds a date. *)
Lemma run_leaves_dates (row : Row) :
  row ∈ out → ∃ dt, get_exif_datetime fs' (path row) = Ok (Some dt).
Proof.
  intros Hrow.
  destruct (run_called fs folder listing data out fs' calls
              Hlisting Hscan Hfilled Hconfirm row Hrow) as [Hpath Hpair].
  destruct (get_exif_datetime_total fs (path row)) as ([dt0|] & Hget & _).
  - exists dt0. rewrite <-Hget. apply get_exif_datetime_local.
    apply (on_confirm_unwritten _ _ _ _ Hconfirm).
    intros Hin. apply Hpath in Hin. congruence.
  - assert ((path row, date row) ∈ calls) as Hcall by by apply Hpair.
    destruct (run_calls fs folder listing data out fs' calls
                Hlisting Hscan Hfilled Hconfirm _ Hcall)
      as (r & dt & Hr & [= _ Hdate] & _ & _ & _ & Hvalid & k & m & Hk & Hparse).
    pose proof (Hyears r k _ m Hr Hk Hparse) as Hyear.
    destruct (out_row_saves row Hrow) as (img & Himg & Hs).
    destruct (list_elem_of_split _ _ Hrow) as (pre & post & Heq).
    pose proof (run_out_paths fs folder listing data out Hlisting Hscan Hfilled)
      as Hnd.
    pose proof Hconfirm as Hc. rewrite Heq in Hnd, Hc.
    destruct (on_confirm_middle _ _ _ _ _ _ Hnd Hc)
      as (fs1 & c1 & Hpre & Hsame & _ & _).
    rewrite on_confirm_app, Hpre in Hc. simpl in Hc.
    rewrite Hsame, Hget in Hc. simpl in Hc.
    destruct (on_confirm _ post) as [[fs2 c2]|] eqn:Hpost; [|done].
    simpl in Hc. injection Hc as <- _.
    rewrite fmap_app, fmap_cons in Hnd.
    apply NoDup_app in Hnd as (_ & Hdisj & Hnd).
    apply NoDup_cons in Hnd as [Hnotpost _].
    destruct (on_confirm_frame _ _ _ _ Hpost) as [Hframe _].
    destruct (on_confirm_frame _ _ _ _ Hpre) as [Hframe1 _].
    exists dt. rewrite (get_exif_datetime_local _ _ _ (Hframe _ Hnotpost)).
    rewrite Hdate. eapply get_after_set; [|done..].
    rewrite Hframe1; [done|]. intros Hin. apply (Hdisj _ Hin). by left.
Qed.

Lemma second_run_no_calls (data2 out2 : list Row) :
  scan fs' folder listing = Ok data2 → filled data2 = Ok out2 →
  on_confirm fs' out2 = Ok (fs', []).
Proof.
  intros Hscan2 Hfilled2. apply on_confirm_no_calls. intros row2 Hrow2.
  assert (path row2 ∈ path <$> out) as (row & Hp & Hrow)%list_elem_of_fmap.
  { destruct (filled_rows _ _ Hfilled) as (l & Hl & Hfills).
    destruct (filled_rows _ _ Hfilled2) as (l2 & Hl2 & Hfills2).
    rewrite (fills_paths _ _ Hfills), Hl.
    rewrite (scanned_keyed_paths _ _ _ _ (run_scanned fs folder listing data Hscan)).
    rewrite <-(scanned_keyed_paths _ _ _ _
                 (run_scanned fs' folder listing data2 Hscan2)).
    rewrite <-Hl2, <-(fills_paths _ _ Hfills2). by apply list_elem_of_fmap_2. }
  rewrite Hp. by apply run_leaves_dates.
Qed.

End second_run.

(** X12. When every picture of the folder opens and can be saved, and
    every key of the folder has a year of at least 1000, a run that was
    confirmed leaves a date in every file the filler returned, and on a
    second run over the same folder the writer is not called at all and
    the store stays as it is. *)
Theorem X12_second_run_writes_nothing (fs : gmap string image) (folder : string)
    (listing : list string) (data out : list Row) (fs' : gmap string image)
    (calls : list (string * option datetime)) (data2 out2 : list Row) :
  listing_ok listing →
  scan fs folder listing = Ok data → filled data = Ok out →
  on_confirm fs out = Ok (fs', calls) →
  (∀ f, f ∈ jpg_files listing →
     ∃ img, fs !! path_join folder f = Some img ∧ saves img = true) →
  (∀ r k y m, r ∈ data → ym r = Some k → parse_ym k = Ok (y, m) → 1000 <= y) →
  scan fs' folder listing = Ok data2 → filled data2 = Ok out2 →
  (∀ row, row ∈ out → ∃ dt, get_exif_datetime fs' (path row) = Ok (Some dt))
  ∧ on_confirm fs' out2 = Ok (fs', []).
Proof.
  intros Hl Hs Hf Hc Hsaves Hyears Hs2 Hf2. split.
  - exact (run_leaves_dates fs folder listing data out fs' calls
             Hl Hs Hf Hc Hsaves Hyears).
  - exact (second_run_no_calls fs folder listing data out fs' calls
             Hl Hs Hf Hc Hsaves Hyears data2 out2 Hs2 Hf2).
Qed.

Lemma X12_second_run_writes_nothing_witness :
  (∀ row, row ∈ january_filled →
     ∃ dt, get_exif_datetime pics_after (path row) = Ok (Some dt))
  ∧ on_confirm pics_after january_filled = Ok (pics_after, []).
Proof.
  apply (X12_second_run_writes_nothing pics "/p" pics_listing pics_data
           january_filled pics_after pics_calls pics_data_again january_filled).
  - split; [by apply (bool_decide_unpack _)|repeat constructor].
  - vm_compute. reflexivity.
  - vm_compute. reflexivity.
  - vm_compute. reflexivity.
  - intros f Hf.
    assert (jpg_files pics_listing = ["A-2024-01.jpg"; "B-2024-01.jpg"; "holiday.jpg"])
      as Heq by (vm_compute; reflexivity).
    rewrite Heq in Hf.
    apply elem_of_cons in Hf as [->|Hf]; [exists img_dated; by vm_compute|].
    apply elem_of_cons in Hf as [->|Hf]; [exists img_undated; by vm_compute|].
    apply elem_of_cons in Hf as [->|Hf]; [exists img_undated; by vm_compute|].
    by apply elem_of_nil in Hf.
  - intros r k y m Hr Hk Hp.
    apply elem_of_cons in Hr as [->|Hr].
    { injection Hk as <-. vm_compute in Hp. injection Hp as <- _. lia. }
    apply elem_of_cons in Hr as [->|Hr].
    { injection Hk as <-. vm_compute in Hp. injection Hp as <- _. lia. }
    apply elem_of_cons in Hr as [->|Hr]; [discriminate Hk|].
    by apply elem_of_nil in Hr.
  - vm_compute. reflexivity.
  - vm_compute. reflexivity.
Defined.

(** ** The order of the output *)

Lemma fills_group_sorted (k : string) (l o : list Row) :
  Forall2 fills l o → Forall (has_ym k) l → StronglySorted file_le l →
  StronglySorted row_before o ∧ Forall (has_ym k) o.
Proof.
  induction 1 as [|r r' l o (Hf & _ & Hy & _) Hrest IH]; intros Hk Hs.
  { split; constructor. }
  apply Forall_cons in Hk as [Hr Hk]. apply StronglySorted_cons in Hs as [Hle Hs].
  destruct (IH Hk Hs) as [IHs IHk].
  assert (has_ym k r') as Hr' by (unfold has_ym in *; congruence).
  split; [|by constructor]. constructor; [done|].
  apply Forall_forall. intros x' [j Hj]%list_elem_of_lookup.
  destruct (Forall2_lookup_r _ _ _ _ _ Hrest Hj) as (x & Hx & (Hfx & _)).
  rewrite Forall_forall in Hle. rewrite Forall_forall in IHk.
  exists k, k. split_and!; [done|by apply IHk; eapply list_elem_of_lookup_2|].
  right. split; [done|]. unfold str_le. rewrite Hf, Hfx.
  by apply Hle; eapply list_elem_of_lookup_2.
Qed.

Lemma group_keys_sorted (df : list Row) : StronglySorted str_le (group_keys df).
Proof. apply StronglySorted_merge_sort; apply _. Qed.

(** X13. The rows of the filler's output come group after group in the
    ascending order of the keys, and within a group in the order of the
    file names. *)
Theorem X13_output_order (df out : list Row) :
  filled df = Ok out → StronglySorted row_before out.
Proof.
  intros (outs & Hf & ->)%filled_Ok.
  pose proof (group_keys_sorted df) as Hs. pose proof (NoDup_group_keys df) as Hnd.
  induction Hf as [|k o ks outs Ho Hf IH]; [constructor|].
  apply StronglySorted_cons in Hs as [Hle Hs].
  apply NoDup_cons in Hnd as [Hk Hnd]. specialize (IH Hs Hnd).
  change (mjoin (o :: outs)) with (o ++ mjoin outs).
  destruct (fills_group_sorted k _ o (fill_month_fills _ _ Ho)) as [Hso Hko].
  { rewrite sort_values_perm. apply Forall_forall.
    by intros ? [? _]%list_elem_of_filter. }
  { apply Sorted_StronglySorted; [apply _|apply sort_values_sorted]. }
  apply StronglySorted_app_2; [|done..].
  intros x1 x2 Hx1 (o2 & Hx2 & Ho2)%list_elem_of_join.
  apply list_elem_of_lookup in Ho2 as [i Hi].
  destruct (Forall2_lookup_r _ _ _ _ _ Hf Hi) as (k2 & Hk2 & Hfill2).
  destruct (fills_group_sorted k2 _ o2 (fill_month_fills _ _ Hfill2)) as [_ Hko2].
  { rewrite sort_values_perm. apply Forall_forall.
    by intros ? [? _]%list_elem_of_filter. }
  { apply Sorted_StronglySorted; [apply _|apply sort_values_sorted]. }
  rewrite Forall_forall in Hko. rewrite Forall_forall in Hko2.
  rewrite Forall_forall in Hle.
  assert (k2 ∈ ks) as Hin by by eapply list_elem_of_lookup_2.
  exists k, k2. split_and!; [by apply Hko|by apply Hko2|].
  left. split; [by intros ->|by apply Hle].
Qed.

Lemma X13_output_order_witness : StronglySorted row_before january_filled.
Proof.
  apply (X13_output_order pics_data january_filled).
  vm_compute. reflexivity.
Defined.
